(** * The cleaning pipeline of [app.py] ([clean_data])

    A shallow embedding of [clean_data] (app.py, lines 26-83) and of the
    pandas operations it calls, followed by the properties of the pipeline.

    Modelling conventions.
    - A [DataFrame] is the ordered list of its columns; a column ([Series])
      carries its label, its storage type ([dtype]) and its cells.  The
      embedding starts from the frame returned by [pd.read_csv] /
      [pd.read_excel]; reading the file itself is not modelled.
    - Text cells and text labels are byte strings (UTF-8).  The labels of a
      [DataFrame] are texts, as [pd.read_csv] gives them; a frame in which a
      label may be a number, as [pd.read_excel] gives it for a numeric
      header cell, is a [LabelledFrame] ([clean_data_labelled]).
    - A finite [float64] cell carries the rational it stands for ([VFloat]);
      the two infinities are cells of their own ([VInf]); the sign of zero is
      not modelled.  An integer cell is an unbounded integer; the storage
      type records whether the column is [int64] or [uint64], and no
      arithmetic of the pipeline ever writes an integer cell.  Reading an
      integer as a float ([as_float]) is exact.
    - The mean of a column is computed by pandas in [float64] arithmetic,
      which rounds, overflows and yields NaN; it is a parameter of the
      development ([float_mean]), of which only the fact that a sum over
      both infinities is NaN is assumed.
    - NaN, NaT and None are one cell, [NA].
    - [df[col].fillna(v, inplace=True)] updates the column of [df], as it
      does in the pandas versions without copy-on-write.
    - Parsing a text as a number and parsing a cell as a date are functions
      of pandas; they are parameters of the development too ([Pandas]). *)

From Stdlib Require Import Ascii QArith Qcanon.
From stdpp Require Import base numbers sorting strings gmap option list.

Local Close Scope Q_scope.
Local Close Scope Qc_scope.
Local Open Scope string_scope.
Local Open Scope list_scope.
Local Open Scope nat_scope.

(** ** Data model *)

Inductive dtype := Int64 | UInt64 | Float64 | Bool | Datetime64 | Object.

Inductive cell :=
  | NA                 (* NaN / NaT / None *)
  | VInt (z : Z)
  | VFloat (q : Qc)    (* a finite float *)
  | VInf (neg : bool)  (* inf, and -inf when [neg] *)
  | VBool (b : bool)
  | VTime (t : Z)      (* a Timestamp, in nanoseconds since the epoch *)
  | VStr (s : string).

Record Series := mkSeries {
  name : string;
  sdtype : dtype;
  values : list cell
}.

Abbreviation DataFrame := (list Series).

Global Instance dtype_eq_dec : EqDecision dtype.
Proof. solve_decision. Defined.
Global Instance cell_eq_dec : EqDecision cell.
Proof. solve_decision. Defined.
Global Instance Series_eq_dec : EqDecision Series.
Proof. solve_decision. Defined.

Definition columns (df : DataFrame) : list string := fmap name df.

(** ** Exceptions *)

Inductive pyexn := ValueError | TypeError | AttributeError | KeyError.

Inductive result (A : Type) :=
  | Ok (a : A)
  | Raise (e : pyexn).
Arguments Ok {A} a.
Arguments Raise {A} e.

Definition bind {A B} (r : result A) (k : A → result B) : result B :=
  match r with
  | Ok a => k a
  | Raise e => Raise e
  end.

Notation "x <- r ;; k" := (bind r (λ x, k))
  (at level 100, r at next level, right associativity).

Global Instance pyexn_eq_dec : EqDecision pyexn.
Proof. solve_decision. Defined.
Global Instance result_eq_dec `{EqDecision A} : EqDecision (result A).
Proof. solve_decision. Defined.

(** ** Header mapping (lines 36-45) *)

(* a string literal is the sequence of its UTF-8 bytes: "°" is C2 B0 *)
Definition header_mapping : gmap string string :=
  list_to_map
    [ ("Sample_ID", "Sample ID");
      ("Test_Date", "Test Date");
      ("Temp (°C)", "Temperature (°C)");
      ("Result_Value", "Result Value") ].

(* [header_mapping.get(h, h)] *)
Definition mapped (m : gmap string string) (h : string) : string :=
  default h (m !! h).

(* [df.rename(columns=m, inplace=True)] *)
Definition rename (m : gmap string string) (df : DataFrame) : DataFrame :=
  fmap (λ c, mkSeries (mapped m (name c)) (sdtype c) (values c)) df.

(** ** Text helpers *)

(* [str.lower] on the bytes of a label: A-Z become a-z.  The bytes of a
   non-ASCII character are all above 127 and its lower-case form never
   contains one of the letters d, a, t, e, so the test of line 49 is
   decided by the ASCII bytes alone. *)
Definition lower_ascii (a : ascii) : ascii :=
  let n := nat_of_ascii a in
  if Nat.leb 65 n && Nat.leb n 90 then ascii_of_nat (n + 32) else a.

Fixpoint lower (s : string) : string :=
  match s with
  | EmptyString => EmptyString
  | String a s' => String (lower_ascii a) (lower s')
  end.

Fixpoint is_prefix (p s : string) : bool :=
  match p, s with
  | EmptyString, _ => true
  | String a p', String b s' => bool_decide (a = b) && is_prefix p' s'
  | String _ _, EmptyString => false
  end.

(* [p in s] *)
Fixpoint contains (p s : string) : bool :=
  is_prefix p s ||
  match s with
  | EmptyString => false
  | String _ s' => contains p s'
  end.

(* ["date" in col.lower()] (line 49) *)
Definition is_date_column (col : string) : bool := contains "date" (lower col).

(** ** Access to the columns of a frame *)

(* [df[col]]: the columns labelled [col]; one of them gives a Series, several
   give a DataFrame *)
Definition getitem (df : DataFrame) (col : string) : list Series :=
  filter (λ c, name c = col) df.

(* [df[col] = s], for a label that is present *)
Definition setitem (df : DataFrame) (col : string) (s : Series) : DataFrame :=
  fmap (λ c, if decide (name c = col) then s else c) df.

(* [for col in cols: body] on the frame *)
Fixpoint for_each {K F} (cols : list K) (body : K → F → result F) (df : F)
  : result F :=
  match cols with
  | [] => Ok df
  | col :: rest => df' <- body col df ;; for_each rest body df'
  end.

(* [df.select_dtypes(include=["object"]).columns] *)
Definition select_dtypes_object (df : DataFrame) : list string :=
  columns (filter (λ c, sdtype c = Object) df).

(** ** Parsing done by pandas *)

(* "12", "0.5", and "inf" or "-inf" *)
Inductive number := NInt (z : Z) | NFloat (q : Qc) | NInf (neg : bool).

(* a float that is not NaN *)
Inductive float64 := Finite (q : Qc) | Infinity (neg : bool).

Global Instance number_eq_dec : EqDecision number.
Proof. solve_decision. Defined.
Global Instance float64_eq_dec : EqDecision float64.
Proof. solve_decision. Defined.

Class Pandas := {
  (* the number a text stands for, if any ([pd.to_numeric] on one cell) *)
  parse_number : string → option number;
  (* the instant a cell stands for, if any ([pd.to_datetime] on one cell);
     the first argument is the whole column, from which pandas infers the
     format *)
  parse_datetime : list cell → cell → option Z;
  (* the mean of a column with a present cell ([Series.mean]), which pandas
     computes in float64 arithmetic: the sum of the present cells, rounded
     and possibly overflowing, divided by their number; [None] is NaN, in
     the column and as the result *)
  float_mean : list (option float64) → option float64;
  (* a sum that meets both inf and -inf is NaN *)
  float_mean_infinities xs :
    Some (Infinity false) ∈ xs → Some (Infinity true) ∈ xs →
    float_mean xs = None
}.

Definition isna (c : cell) : bool :=
  match c with NA => true | _ => false end.

Definition dropna (l : list cell) : list cell := filter (λ c, c ≠ NA) l.

Section pipeline.
Context `{Pandas}.

(** ** Date columns (lines 47-50) *)

Definition to_datetime_cell (ctx : list cell) (c : cell) : cell :=
  match c with
  | NA => NA
  | _ => match parse_datetime ctx c with
         | Some t => VTime t
         | None => NA
         end
  end.

(* [pd.to_datetime(s, errors="coerce")]; a datetime64 column is returned as
   it is *)
Definition to_datetime (s : Series) : Series :=
  match sdtype s with
  | Datetime64 => s
  | _ => mkSeries (name s) Datetime64
           (fmap (to_datetime_cell (values s)) (values s))
  end.

(* with several columns labelled [col], [pd.to_datetime] is given a
   DataFrame with duplicate keys and raises ValueError *)
Definition convert_date_column (col : string) (df : DataFrame)
  : result DataFrame :=
  if is_date_column col then
    match getitem df col with
    | [] => Raise KeyError
    | [s] => Ok (setitem df col (to_datetime s))
    | _ => Raise ValueError
    end
  else Ok df.

Definition convert_dates (df : DataFrame) : result DataFrame :=
  for_each (columns df) convert_date_column df.

(** ** Sentinels and numbers (lines 52-55) *)

Definition sentinels : gmap string cell :=
  list_to_map [ ("N/A", NA); ("NA", NA); ("<0.3", NA) ].

Definition replace_cell (m : gmap string cell) (c : cell) : cell :=
  match c with
  | VStr s => default c (m !! s)
  | _ => c
  end.

(* [s.replace(m)] *)
Definition replace (m : gmap string cell) (s : Series) : Series :=
  mkSeries (name s) (sdtype s) (fmap (replace_cell m) (values s)).

(* what [pd.to_numeric(..., errors="coerce")] reads in one cell of an object
   column *)
Definition numeric_cell (c : cell) : cell :=
  match c with
  | NA => NA
  | VInt z => VInt z
  | VFloat q => VFloat q
  | VInf b => VInf b
  | VBool b => VBool b
  | VTime _ => NA
  | VStr s => match parse_number s with
              | Some (NInt z) => VInt z
              | Some (NFloat q) => VFloat q
              | Some (NInf b) => VInf b
              | None => NA
              end
  end.

Definition is_floating (c : cell) : bool :=
  match c with NA | VFloat _ | VInf _ => true | _ => false end.

Definition is_integer (c : cell) : bool :=
  match c with VInt _ => true | _ => false end.

Definition as_float (c : cell) : cell :=
  match c with
  | VInt z => VFloat (Qc_of_Z z)
  | VBool b => VFloat (Qc_of_Z (Z.b2z b))
  | _ => c
  end.

Definition as_int (c : cell) : cell :=
  match c with
  | VBool b => VInt (Z.b2z b)
  | _ => c
  end.

(* the bounds of the integer types *)
Definition INT64_MIN : Z := - 2 ^ 63.
Definition INT64_MAX : Z := 2 ^ 63 - 1.
Definition UINT64_MAX : Z := 2 ^ 64 - 1.

(* an integer that fits neither int64 nor uint64 *)
Definition is_wide (c : cell) : bool :=
  match c with
  | VInt z => bool_decide (z < INT64_MIN ∨ UINT64_MAX < z)%Z
  | _ => false
  end.

(* an integer that fits uint64 only *)
Definition is_unsigned (c : cell) : bool :=
  match c with
  | VInt z => bool_decide (INT64_MAX < z ≤ UINT64_MAX)%Z
  | _ => false
  end.

(* a negative integer that fits int64 *)
Definition is_negative (c : cell) : bool :=
  match c with
  | VInt z => bool_decide (INT64_MIN ≤ z < 0)%Z
  | _ => false
  end.

(* [pd.to_numeric(s, errors="coerce")] on an object column: float64 as soon
   as one cell is a float or missing, or an integer fits no integer type, or
   the integers fit no single one; else uint64 as soon as an integer is
   above the int64 range, else int64 as soon as one cell is an integer, else
   bool; an empty column gives int64 *)
Definition to_numeric (s : Series) : Series :=
  let vs := fmap numeric_cell (values s) in
  if existsb is_floating vs || existsb is_wide vs
     || (existsb is_unsigned vs && existsb is_negative vs)
  then mkSeries (name s) Float64 (fmap as_float vs)
  else if existsb is_integer vs then
    mkSeries (name s) (if existsb is_unsigned vs then UInt64 else Int64)
      (fmap as_int vs)
  else match vs with
       | [] => mkSeries (name s) Int64 []
       | _ => mkSeries (name s) Bool vs
       end.

(* with several columns labelled [col], [pd.to_numeric] is given a DataFrame
   and raises TypeError *)
Definition convert_numeric_column (col : string) (df : DataFrame)
  : result DataFrame :=
  match getitem df col with
  | [] => Raise KeyError
  | [s] =>
      let df := setitem df col (replace sentinels s) in
      match getitem df col with
      | [s] => Ok (setitem df col (to_numeric s))
      | _ => Raise TypeError
      end
  | _ => Raise TypeError
  end.

Definition convert_numeric (df : DataFrame) : result DataFrame :=
  for_each (select_dtypes_object df) convert_numeric_column df.

(** ** The loops, column by column *)

(* what lines 48-50 do to one column *)
Definition date_step (c : Series) : Series :=
  if is_date_column (name c) then to_datetime c else c.

(* what lines 53-55 do to one column *)
Definition numeric_step (c : Series) : Series :=
  if decide (sdtype c = Object) then to_numeric (replace sentinels c) else c.

(* the columns after type coercion *)
Definition coerce (c : Series) : Series := numeric_step (date_step c).

(* a cell of a text column that holds no number *)
Definition not_a_number (x : cell) : Prop :=
  x = NA
  ∨ ∃ s, x = VStr s ∧ (s ∈ ["N/A"; "NA"; "<0.3"] ∨ parse_number s = None).

(* the number that lines 53-55 read in a cell of a text column, if any *)
Definition reading (x : cell) : option float64 :=
  match x with
  | VStr s =>
      if decide (s ∈ ["N/A"; "NA"; "<0.3"]) then None
      else match parse_number s with
           | Some (NInt z) => Some (Finite (Qc_of_Z z))
           | Some (NFloat q) => Some (Finite q)
           | Some (NInf b) => Some (Infinity b)
           | None => None
           end
  | _ => None
  end.

End pipeline.

(** ** Missing values (lines 57-62) *)

(* [s.fillna(v)]; filling with NaN changes nothing *)
Definition fillna (v : cell) (l : list cell) : list cell :=
  fmap (λ c, if isna c then v else c) l.

(* the float a numeric cell stands for *)
Definition number_of (c : cell) : option float64 :=
  match c with
  | VInt z => Some (Finite (Qc_of_Z z))
  | VFloat q => Some (Finite q)
  | VInf b => Some (Infinity b)
  | _ => None
  end.

(* a float as a cell; NaN is the missing cell *)
Definition float_cell (x : option float64) : cell :=
  match x with
  | Some (Finite q) => VFloat q
  | Some (Infinity b) => VInf b
  | None => NA
  end.

Section imputation.
Context `{Pandas}.

(* [s.mean()]: the missing cells are skipped; NaN when nothing is left *)
Definition mean (l : list cell) : cell :=
  match omap number_of l with
  | [] => NA
  | _ => float_cell (float_mean (fmap number_of l))
  end.

(* the distinct elements, in the order of their first occurrence *)
Fixpoint unique `{EqDecision A} (l : list A) : list A :=
  match l with
  | [] => []
  | x :: l' => x :: filter (λ y, y ≠ x) (unique l')
  end.

Definition count (x : cell) (l : list cell) : nat :=
  length (filter (λ y, y = x) l).

(* the most frequent present values *)
Definition modes (l : list cell) : list cell :=
  let xs := dropna l in
  let top := max_list (fmap (λ x, count x xs) xs) in
  filter (λ x, count x xs = top) (unique xs).

(* the order in which [mode] sorts its result: by value within one kind of
   cell (a column holds one kind) *)
Definition kind (c : cell) : nat :=
  match c with
  | NA => 0 | VBool _ => 1 | VInt _ => 2 | VInf true => 3 | VFloat _ => 4
  | VInf false => 5 | VTime _ => 6 | VStr _ => 7
  end.

Definition cell_leb (a b : cell) : bool :=
  match a, b with
  | VBool x, VBool y => implb x y
  | VInt x, VInt y => bool_decide (x ≤ y)%Z
  | VFloat x, VFloat y => bool_decide (x ≤ y)%Qc
  | VTime x, VTime y => bool_decide (x ≤ y)%Z
  | VStr x, VStr y => String.leb x y
  | _, _ => bool_decide (kind a ≤ kind b)%nat
  end.

Definition cell_le (a b : cell) : Prop := cell_leb a b = true.

Global Instance cell_le_dec : RelDecision cell_le.
Proof. intros a b. unfold cell_le. apply _. Defined.

(* [s.mode()]: all the most frequent present values, sorted *)
Definition mode (l : list cell) : list cell := merge_sort cell_le (modes l).

(* [s.mode()[0]] *)
Definition mode0 (l : list cell) : result cell :=
  match mode l with
  | [] => Raise KeyError
  | x :: _ => Ok x
  end.

Definition is_numeric_dtype (d : dtype) : bool :=
  match d with Float64 | Int64 => true | _ => false end.

(* the body of the loop of lines 58-62, on one column *)
Definition fill_column (s : Series) : result Series :=
  if is_numeric_dtype (sdtype s) then
    Ok (mkSeries (name s) (sdtype s) (fillna (mean (values s)) (values s)))
  else
    v <- mode0 (values s) ;;
    Ok (mkSeries (name s) (sdtype s) (fillna v (values s))).

(* with several columns labelled [col], [df[col]] is a DataFrame, which has
   no attribute [dtype] *)
Definition fill_missing_column (col : string) (df : DataFrame)
  : result DataFrame :=
  match getitem df col with
  | [] => Raise KeyError
  | [s] => s' <- fill_column s ;; Ok (setitem df col s')
  | _ => Raise AttributeError
  end.

Definition fill_missing (df : DataFrame) : result DataFrame :=
  for_each (columns df) fill_missing_column df.

End imputation.

(** ** Duplicate rows (lines 64-65) *)

Definition nrows (df : DataFrame) : nat :=
  match df with
  | [] => 0
  | c :: _ => length (values c)
  end.

Definition row (df : DataFrame) (i : nat) : list cell :=
  fmap (λ c, default NA (values c !! i)) df.

Definition rows (df : DataFrame) : list (list cell) :=
  fmap (row df) (seq 0 (nrows df)).

(* [df.duplicated()]: row [i] is marked when an earlier row equals it in
   every column; two missing cells are equal *)
Definition duplicated (df : DataFrame) : list bool :=
  fmap (λ i, existsb (λ j, bool_decide (row df j = row df i)) (seq 0 i))
      (seq 0 (nrows df)).

(* [l[mask]] *)
Fixpoint select {A} (mask : list bool) (l : list A) : list A :=
  match mask, l with
  | b :: mask', x :: l' => if b then x :: select mask' l' else select mask' l'
  | _, _ => []
  end.

(* [df.drop_duplicates(inplace=True)], which is [df[~df.duplicated()]] *)
Definition drop_duplicates (df : DataFrame) : DataFrame :=
  let keep := fmap negb (duplicated df) in
  fmap (λ c, mkSeries (name c) (sdtype c) (select keep (values c))) df.

(** ** Metadata report (lines 67-75) *)

Record metadata_row := mkRow {
  index : string;
  original_header : string;
  mapped_header : string;
  column_type : string;
  missing_values : nat;
  unique_values : nat
}.

Global Instance metadata_row_eq_dec : EqDecision metadata_row.
Proof. solve_decision. Defined.

Definition dtype_str (d : dtype) : string :=
  match d with
  | Int64 => "int64"
  | UInt64 => "uint64"
  | Float64 => "float64"
  | Bool => "bool"
  | Datetime64 => "datetime64[ns]"
  | Object => "object"
  end.

(* [s.isnull().sum()] *)
Definition isnull_sum (l : list cell) : nat := length (filter (λ c, c = NA) l).

(* [s.nunique()]: the number of distinct present values *)
Definition nunique (l : list cell) : nat := length (unique (dropna l)).

Definition metadata_report (original_headers : list string) (df : DataFrame)
  : list metadata_row :=
  zip_with
    (λ h c, mkRow (name c) h (mapped header_mapping h) (dtype_str (sdtype c))
                  (isnull_sum (values c)) (nunique (values c)))
    original_headers df.

(** ** The pipeline (lines 26-83) *)

Section clean.
Context `{Pandas}.

(* the frame written to "Cleaned Data" and the rows of "Metadata Report" *)
Definition clean_data (df : DataFrame)
  : result (DataFrame * list metadata_row) :=
  let original_headers := columns df in
  let df := rename header_mapping df in
  df <- convert_dates df ;;
  df <- convert_numeric df ;;
  df <- fill_missing df ;;
  let df := drop_duplicates df in
  Ok (df, metadata_report original_headers df).

End clean.

(** ** Labels that are not texts (lines 45-50)

    [read_csv] labels every column with a text.  [read_excel] labels a column
    with the value of its header cell, which is an int for a numeric cell;
    such a label has no method [lower].  The frames above have text labels;
    a frame as [read_excel] returns it is a [LabelledFrame]. *)

Inductive label := Text (s : string) | Number (z : Z).

Global Instance label_eq_dec : EqDecision label.
Proof. solve_decision. Defined.

Record Labelled := mkLabelled {
  label_of : label;
  dtype_of : dtype;
  cells_of : list cell
}.

Abbreviation LabelledFrame := (list Labelled).

Definition labels (f : LabelledFrame) : list label := fmap label_of f.

(* a column with a text label *)
Definition labelled (c : Series) : Labelled :=
  mkLabelled (Text (name c)) (sdtype c) (values c).

Definition series (s : string) (c : Labelled) : Series :=
  mkSeries s (dtype_of c) (cells_of c).

(* [header_mapping.get(h, h)]: a number is no key of the mapping *)
Definition mapped_label (m : gmap string string) (l : label) : label :=
  match l with
  | Text s => Text (mapped m s)
  | Number z => Number z
  end.

Definition rename_labels (m : gmap string string) (f : LabelledFrame)
  : LabelledFrame :=
  fmap (λ c, mkLabelled (mapped_label m (label_of c)) (dtype_of c)
               (cells_of c)) f.

Definition text_of (l : label) : option string :=
  match l with
  | Text s => Some s
  | Number _ => None
  end.

(* the frame, when every label is a text *)
Fixpoint as_frame (f : LabelledFrame) : option DataFrame :=
  match f with
  | [] => Some []
  | c :: f' =>
      match text_of (label_of c), as_frame f' with
      | Some s, Some df => Some (series s c :: df)
      | _, _ => None
      end
  end.

Fixpoint texts (ls : list label) : option (list string) :=
  match ls with
  | [] => Some []
  | l :: ls' =>
      match text_of l, texts ls' with
      | Some s, Some ss => Some (s :: ss)
      | _, _ => None
      end
  end.

Section labelled_frames.
Context `{Pandas}.

(* lines 49-50 for one label: [col.lower()] raises AttributeError when [col]
   is a number *)
Definition convert_date_label (col : label) (f : LabelledFrame)
  : result LabelledFrame :=
  match col with
  | Number _ => Raise AttributeError
  | Text s =>
      if is_date_column s then
        match filter (λ c, label_of c = col) f with
        | [] => Raise KeyError
        | [c] =>
            Ok (fmap (λ c', if decide (label_of c' = col)
                            then labelled (to_datetime (series s c))
                            else c') f)
        | _ => Raise ValueError
        end
      else Ok f
  end.

(* [clean_data] on a frame as it is read.  When the loop of lines 48-50 is
   over, [col.lower()] has returned for every label: every label is a text,
   and the rest of the function runs on a frame with text labels. *)
Definition clean_data_labelled (f : LabelledFrame)
  : result (DataFrame * list metadata_row) :=
  let original_headers := labels f in
  let f := rename_labels header_mapping f in
  f <- for_each (labels f) convert_date_label f ;;
  match as_frame f, texts original_headers with
  | Some df, Some hs =>
      df <- convert_numeric df ;;
      df <- fill_missing df ;;
      let df := drop_duplicates df in
      Ok (df, metadata_report hs df)
  | _, _ => Raise AttributeError
  end.

End labelled_frames.

(** ** The allowed extensions (lines 12, 21-23) *)

Definition ALLOWED_EXTENSIONS : gset string :=
  list_to_set ["xlsx"; "xlsm"; "csv"].

(* [s] cut at its last [sep]: what precedes it and what follows it *)
Fixpoint rsplit_last (sep : ascii) (s : string) : option (string * string) :=
  match s with
  | EmptyString => None
  | String a s' =>
      match rsplit_last sep s' with
      | Some (h, t) => Some (String a h, t)
      | None => if decide (a = sep) then Some (EmptyString, s') else None
      end
  end.

(* [s.rsplit(sep, 1)] *)
Definition rsplit1 (sep : ascii) (s : string) : list string :=
  match rsplit_last sep s with
  | Some (h, t) => [h; t]
  | None => [s]
  end.

(* [allowed_file(filename)]; [None] stands for the IndexError of [[1]].  The
   letters of the three extensions are ASCII letters that no other character
   has as its lower-case form, so [lower] on the bytes decides the test. *)
Definition allowed_file (filename : string) : option bool :=
  if contains "." filename then
    match rsplit1 "." filename !! 1 with
    | Some ext => Some (bool_decide (lower ext ∈ ALLOWED_EXTENSIONS))
    | None => None
    end
  else Some false.

(** ** Reading the file (lines 27-31) *)

(* [s.endswith(suffix)] *)
Fixpoint endswith (s suffix : string) : bool :=
  bool_decide (s = suffix) ||
  match s with
  | EmptyString => false
  | String _ s' => endswith s' suffix
  end.

Section loading.
(* [pd.read_csv(path)] and [pd.read_excel(path, engine="openpyxl")] *)
Variables pd_read_csv pd_read_excel : string → result DataFrame.

Definition load (file_path : string) : result DataFrame :=
  if endswith file_path ".csv" then pd_read_csv file_path
  else pd_read_excel file_path.

End loading.

(** ** An instance to run examples

    Numbers: an optional sign, digits, and an optional fraction part, or
    "inf" and "-inf".  Dates: a timestamp stands for itself and an integer
    for that many nanoseconds; no text is read as a date.  The mean is the
    exact one.  The examples below only contain texts and numbers on which
    this agrees with pandas. *)

Definition digit (a : ascii) : option Z :=
  let n := nat_of_ascii a in
  if Nat.leb 48 n && Nat.leb n 57 then Some (Z.of_nat (n - 48)) else None.

(* a maximal run of digits: its value, its length and what follows *)
Fixpoint read_digits (s : string) (acc : Z) (n : nat) : Z * nat * string :=
  match s with
  | String a s' =>
      match digit a with
      | Some d => read_digits s' (10 * acc + d)%Z (S n)
      | None => (acc, n, s)
      end
  | EmptyString => (acc, n, s)
  end.

Definition parse_unsigned (s : string) : option number :=
  let '(i, ni, r) := read_digits s 0%Z 0 in
  match r with
  | EmptyString => if Nat.eqb ni 0 then None else Some (NInt i)
  | String "."%char r' =>
      let '(f, nf, r'') := read_digits r' 0%Z 0 in
      match r'' with
      | EmptyString =>
          if Nat.eqb (ni + nf) 0 then None
          else Some (NFloat (Qc_of_Z i
                             + Qc_of_Z f / Qc_of_Z (10 ^ Z.of_nat nf))%Qc)
      | _ => None
      end
  | _ => None
  end.

Definition negate (n : number) : number :=
  match n with
  | NInt z => NInt (- z)
  | NFloat q => NFloat (- q)%Qc
  | NInf b => NInf (negb b)
  end.

Definition parse_decimal (s : string) : option number :=
  match s with
  | "inf" => Some (NInf false)
  | "-inf" => Some (NInf true)
  | String "-"%char s' => negate <$> parse_unsigned s'
  | String "+"%char s' => parse_unsigned s'
  | _ => parse_unsigned s
  end.

Definition Qc_sum (xs : list Qc) : Qc := foldr Qcplus 0%Qc xs.

Definition finite (x : float64) : option Qc :=
  match x with
  | Finite q => Some q
  | Infinity _ => None
  end.

(* the mean in exact arithmetic: what float64 arithmetic gives when no sum
   is rounded and none overflows *)
Definition exact_mean (xs : list (option float64)) : option float64 :=
  if bool_decide (Some (Infinity false) ∈ xs) then
    if bool_decide (Some (Infinity true) ∈ xs) then None
    else Some (Infinity false)
  else if bool_decide (Some (Infinity true) ∈ xs) then Some (Infinity true)
  else Some (Finite (Qc_sum (omap (λ x, x ≫= finite) xs)
                     / Qc_of_Z (Z.of_nat (length (omap id xs))))%Qc).

Lemma exact_mean_infinities xs :
  Some (Infinity false) ∈ xs → Some (Infinity true) ∈ xs →
  exact_mean xs = None.
Proof.
  intros Hp Hn. unfold exact_mean.
  by rewrite !bool_decide_eq_true_2.
Qed.

Definition decimal_parsers : Pandas := {|
  parse_number := parse_decimal;
  parse_datetime := λ _ c,
    match c with
    | VTime t => Some t
    | VInt z => Some z
    | _ => None
    end;
  float_mean := exact_mean;
  float_mean_infinities := exact_mean_infinities
|}.

(** ** An instance with overflow

    The same parsers, and a mean that adds the present cells from left to
    right as float64 arithmetic does when no sum is rounded: a sum whose
    magnitude reaches [2 ^ 1024] is an infinity, and inf plus -inf is
    NaN. *)

Definition FLOAT_BOUND : Qc := Qc_of_Z (2 ^ 1024).

Definition float_add (a : option float64) (b : float64) : option float64 :=
  match a, b with
  | Some (Finite p), Finite q =>
      let r := (p + q)%Qc in
      if bool_decide (FLOAT_BOUND ≤ r)%Qc then Some (Infinity false)
      else if bool_decide (r ≤ - FLOAT_BOUND)%Qc then Some (Infinity true)
      else Some (Finite r)
  | Some (Finite _), Infinity s => Some (Infinity s)
  | Some (Infinity s), Finite _ => Some (Infinity s)
  | Some (Infinity s), Infinity t =>
      if bool_decide (s = t) then Some (Infinity s) else None
  | None, _ => None
  end.

Definition float_sum (xs : list float64) : option float64 :=
  foldl float_add (Some (Finite 0%Qc)) xs.

Definition overflowing_mean (xs : list (option float64)) : option float64 :=
  let present := omap id xs in
  match float_sum present with
  | Some (Finite q) =>
      Some (Finite (q / Qc_of_Z (Z.of_nat (length present)))%Qc)
  | r => r
  end.

Lemma float_add_nan xs : foldl float_add None xs = None.
Proof. by induction xs. Qed.

Lemma float_add_opposite s xs :
  Infinity (negb s) ∈ xs → foldl float_add (Some (Infinity s)) xs = None.
Proof.
  induction xs as [|x xs IH]; [by intros ?%elem_of_nil|].
  intros [<-|Hin]%elem_of_cons.
  - simpl. rewrite bool_decide_eq_false_2 by (by destruct s).
    apply float_add_nan.
  - destruct x as [q|t]; simpl; [by apply IH|].
    case_bool_decide; [by apply IH|apply float_add_nan].
Qed.

Lemma float_add_infinities acc xs :
  Infinity false ∈ xs → Infinity true ∈ xs → foldl float_add acc xs = None.
Proof.
  revert acc. induction xs as [|x xs IH]; intros acc;
    [by intros ?%elem_of_nil|].
  intros Hp Hn. destruct x as [q|t].
  - apply elem_of_cons in Hp as [|Hp]; [done|].
    apply elem_of_cons in Hn as [|Hn]; [done|]. by apply IH.
  - assert (Infinity (negb t) ∈ xs) as Hin.
    { destruct t; simpl.
      - by apply elem_of_cons in Hp as [|Hp].
      - by apply elem_of_cons in Hn as [|Hn]. }
    simpl. destruct acc as [[p|s]|]; simpl.
    + by apply float_add_opposite.
    + case_bool_decide; [subst; by apply float_add_opposite|].
      apply float_add_nan.
    + apply float_add_nan.
Qed.

Lemma overflowing_mean_infinities xs :
  Some (Infinity false) ∈ xs → Some (Infinity true) ∈ xs →
  overflowing_mean xs = None.
Proof.
  intros Hp Hn. unfold overflowing_mean, float_sum.
  rewrite float_add_infinities; [done| |]; apply list_elem_of_omap; eauto.
Qed.

Definition overflowing_parsers : Pandas := {|
  parse_number := parse_decimal;
  parse_datetime := λ _ c,
    match c with
    | VTime t => Some t
    | VInt z => Some z
    | _ => None
    end;
  float_mean := overflowing_mean;
  float_mean_infinities := overflowing_mean_infinities
|}.

(** ** Specification devices *)

(* [f] on every column, left to right, stopping at the first exception *)
Fixpoint traverse (f : Series → result Series) (df : DataFrame)
  : result DataFrame :=
  match df with
  | [] => Ok []
  | c :: df' => c' <- f c ;; df'' <- traverse f df' ;; Ok (c' :: df'')
  end.

(* the value of a parsed number *)
Definition number_value (n : number) : float64 :=
  match n with
  | NInt z => Finite (Qc_of_Z z)
  | NFloat q => Finite q
  | NInf b => Infinity b
  end.

(* a column that imputation can fill: numeric, or with a present cell *)
Definition fillable (c : Series) : Prop :=
  is_numeric_dtype (sdtype c) = true ∨ ∃ x, x ∈ values c ∧ x ≠ NA.

(* the storage type of a column fits its cells *)
Definition cell_fits (d : dtype) (c : cell) : Prop :=
  match d, c with
  | (Int64 | UInt64), VInt _ => True
  | Float64, (VFloat _ | VInf _ | NA) => True
  | Bool, VBool _ => True
  | Datetime64, (VTime _ | NA) => True
  | Object, _ => True
  | _, _ => False
  end.

Definition wf_series (s : Series) : Prop := Forall (cell_fits (sdtype s)) (values s).

(* all the columns have the length of the frame *)
Definition rectangular (df : DataFrame) : Prop :=
  Forall (λ c, length (values c) = nrows df) df.

(* the frame without its first row *)
Definition tail_frame (df : DataFrame) : DataFrame :=
  (λ c, mkSeries (name c) (sdtype c) (tail (values c))) <$> df.

(* [df[mask]] *)
Definition select_rows (mask : list bool) (df : DataFrame) : DataFrame :=
  (λ c, mkSeries (name c) (sdtype c) (select mask (values c))) <$> df.

(* the first [n] rows *)
Definition rows_n (n : nat) (df : DataFrame) : list (list cell) :=
  row df <$> seq 0 n.

Definition count_true (mask : list bool) : nat :=
  length (filter (λ b, b = true) mask).

(* the marks of [duplicated] computed as pandas does, with the table of the
   rows seen so far *)
Fixpoint mask_from {A} `{EqDecision A} (seen l : list A) : list bool :=
  match l with
  | [] => []
  | x :: l' => bool_decide (x ∈ seen) :: mask_from (seen ++ [x]) l'
  end.

(** ** Frames and columns of the examples *)

(* a date column read as objects, one cell of which is not a date *)
Definition dated_frame : DataFrame :=
  [ mkSeries "Test_Date" Object [VTime 5; VStr "unknown"];
    mkSeries "Sample_ID" Int64 [VInt 1; VInt 2] ].

(* a measured value, a sentinel and a text that is no number *)
Definition measured_frame : DataFrame :=
  [ mkSeries "Result Value" Object [VStr "0.5"; VStr "<0.3"; VStr "abc"];
    mkSeries "Sample ID" Int64 [VInt 1; VInt 2; VInt 3] ].

Definition temperature_column : Series :=
  mkSeries "Temperature (°C)" Float64
    [VFloat (Qc_of_Z 20); NA; VFloat (Qc_of_Z 22)].

(* a float64 column with both infinities and a missing cell, as [read_csv]
   gives for the texts "inf", "-inf" and an empty field *)
Definition infinite_column : Series :=
  mkSeries "Result Value" Float64 [VInf false; VInf true; NA].

(* a float that occurs three times, the sum of any two of which overflows,
   then inf and a missing cell *)
Definition overflowing_frame : DataFrame :=
  [ mkSeries "Result Value" Float64
      [VFloat (Qc_of_Z (- 2 ^ 1023)); VFloat (Qc_of_Z (- 2 ^ 1023));
       VFloat (Qc_of_Z (- 2 ^ 1023)); VInf false; NA] ].

(* two dates that occur once each, the later one first, and a missing cell *)
Definition tied_dates : Series :=
  mkSeries "Test Date" Datetime64 [VTime 2; VTime 1; NA].

(* the third row repeats the first *)
Definition repeated_rows : DataFrame :=
  [ mkSeries "Sample ID" Int64 [VInt 1; VInt 2; VInt 1];
    mkSeries "Result Value" Int64 [VInt 5; VInt 6; VInt 5] ].

(* the column of the scenario, 20.0, "N/A", 22.0 under "Temp (°C)", as the
   readers of pandas load it: "N/A" is one of their default markers of a
   missing cell *)
Definition temperature_input : DataFrame :=
  [ mkSeries "Temp (°C)" Float64
      [VFloat (Qc_of_Z 20); NA; VFloat (Qc_of_Z 22)] ].

(* the same column kept as objects, with the text "N/A" in it *)
Definition temperature_objects : DataFrame :=
  [ mkSeries "Temp (°C)" Object
      [VFloat (Qc_of_Z 20); VStr "N/A"; VFloat (Qc_of_Z 22)] ].

Definition temperature_output : DataFrame :=
  [ mkSeries "Temperature (°C)" Float64
      [VFloat (Qc_of_Z 20); VFloat (Qc_of_Z 21); VFloat (Qc_of_Z 22)] ].

Definition temperature_report : list metadata_row :=
  [ mkRow "Temperature (°C)" "Temp (°C)" "Temperature (°C)" "float64" 0 3 ].

(* the scenario: two rows, both "A1" and "<0.3" *)
Definition below_detection : DataFrame :=
  [ mkSeries "Sample_ID" Object [VStr "A1"; VStr "A1"];
    mkSeries "Result_Value" Object [VStr "<0.3"; VStr "<0.3"] ].

Definition below_detection_output : DataFrame :=
  [ mkSeries "Sample ID" Float64 [NA];
    mkSeries "Result Value" Float64 [NA] ].

Definition below_detection_report : list metadata_row :=
  [ mkRow "Sample ID" "Sample_ID" "Sample ID" "float64" 1 0;
    mkRow "Result Value" "Result_Value" "Result Value" "float64" 1 0 ].

(* two samples, already typed, under standard headers *)
Definition typed_frame : DataFrame :=
  [ mkSeries "Sample ID" Int64 [VInt 1; VInt 2];
    mkSeries "Test Date" Datetime64 [VTime 10; VTime 10];
    mkSeries "Result Value" Float64
      [VFloat (Qc_of_Z 5); VFloat (Qc_of_Z 6)] ].

(* two samples under standard headers, the identifiers being text *)
Definition text_frame : DataFrame :=
  [ mkSeries "Sample ID" Object [VStr "A1"; VStr "B2"];
    mkSeries "Result Value" Float64
      [VFloat (Qc_of_Z 5); VFloat (Qc_of_Z 6)] ].

Definition text_frame_output : DataFrame :=
  [ mkSeries "Sample ID" Float64 [NA; NA];
    mkSeries "Result Value" Float64
      [VFloat (Qc_of_Z 5); VFloat (Qc_of_Z 6)] ].

(* two measured values and a value below the detection limit *)
Definition detection_column : Series :=
  mkSeries "Result Value" Object [VStr "1.0"; VStr "<0.3"; VStr "3.0"].

(* a date column in which no cell is a date *)
Definition undated_frame : DataFrame :=
  [ mkSeries "Test_Date" Object [VStr "unknown"; VStr "pending"];
    mkSeries "Result_Value" Float64
      [VFloat (Qc_of_Z 5); VFloat (Qc_of_Z 6)] ].

(* a sheet whose second header cell holds the number 2024 *)
Definition numbered_frame : LabelledFrame :=
  [ mkLabelled (Text "Sample_ID") Int64 [VInt 1; VInt 2];
    mkLabelled (Number 2024) Float64
      [VFloat (Qc_of_Z 5); VFloat (Qc_of_Z 6)] ].

(* two columns that the header mapping gives one label *)
Definition clashing_frame : DataFrame :=
  [ mkSeries "Sample_ID" Int64 [VInt 1; VInt 2];
    mkSeries "Sample ID" Int64 [VInt 3; VInt 4] ].

(** * Properties *)

(** ** Header normalisation *)

Lemma header_mapping_lookup h v :
  header_mapping !! h = Some v →
  (h, v) ∈ [ ("Sample_ID", "Sample ID");
             ("Test_Date", "Test Date");
             ("Temp (°C)", "Temperature (°C)");
             ("Result_Value", "Result Value") ].
Proof. intros E. by apply elem_of_list_to_map_2 in E. Qed.

Lemma mapped_value_not_key h v :
  header_mapping !! h = Some v → header_mapping !! v = None.
Proof.
  intros E. apply header_mapping_lookup in E.
  repeat (apply elem_of_cons in E as [E|E]; [by simplify_eq|]).
  by apply elem_of_nil in E.
Qed.

Lemma mapped_not_key h : header_mapping !! h = None → mapped header_mapping h = h.
Proof. intros E. unfold mapped. by rewrite E. Qed.

Lemma mapped_key h v : header_mapping !! h = Some v → mapped header_mapping h = v.
Proof. intros E. unfold mapped. by rewrite E. Qed.

Lemma mapped_idem h :
  mapped header_mapping (mapped header_mapping h) = mapped header_mapping h.
Proof.
  destruct (header_mapping !! h) as [v|] eqn:E.
  - rewrite (mapped_key h v E). apply mapped_not_key. by eapply mapped_value_not_key.
  - by rewrite !(mapped_not_key h E).
Qed.

Lemma columns_rename m df : columns (rename m df) = fmap (mapped m) (columns df).
Proof. unfold columns, rename. rewrite <-!list_fmap_compose. done. Qed.

Lemma rename_lookup m df i :
  rename m df !! i =
  (λ c, mkSeries (mapped m (name c)) (sdtype c) (values c)) <$> df !! i.
Proof. unfold rename. apply list_lookup_fmap. Qed.

(** C8.  [rename] rewrites exactly the labels that are keys of
    [header_mapping]: the [i]-th column of the result is the [i]-th column of
    the input (same storage type, same cells) under the mapped label, a label
    that is not a key is kept, a key becomes its value, the number of columns
    is unchanged, and mapping a mapped label again changes nothing. *)
Theorem header_normalisation (df : DataFrame) :
  columns (rename header_mapping df) = fmap (mapped header_mapping) (columns df)
  ∧ length (rename header_mapping df) = length df
  ∧ (∀ i c, df !! i = Some c →
       ∃ c', rename header_mapping df !! i = Some c'
             ∧ name c' = mapped header_mapping (name c)
             ∧ sdtype c' = sdtype c ∧ values c' = values c)
  ∧ (∀ h, header_mapping !! h = None → mapped header_mapping h = h)
  ∧ (∀ h v, header_mapping !! h = Some v → mapped header_mapping h = v)
  ∧ (∀ h, mapped header_mapping (mapped header_mapping h)
          = mapped header_mapping h)
  ∧ rename header_mapping (rename header_mapping df) = rename header_mapping df.
Proof.
  split_and!.
  - apply columns_rename.
  - unfold rename. by rewrite length_fmap.
  - intros i c Hi. rewrite rename_lookup, Hi. simpl. eauto.
  - apply mapped_not_key.
  - apply mapped_key.
  - apply mapped_idem.
  - unfold rename. rewrite <-list_fmap_compose. apply list_fmap_ext. intros ? c ?. simpl.
    by rewrite mapped_idem.
Qed.

(** ** Loops over the columns of a frame with unique labels *)

Lemma getitem_app df1 df2 col : getitem (df1 ++ df2) col = getitem df1 col ++ getitem df2 col.
Proof. unfold getitem. apply filter_app. Qed.

Lemma getitem_absent df col : col ∉ columns df → getitem df col = [].
Proof.
  unfold getitem, columns. induction df as [|c df IH]; [done|].
  rewrite fmap_cons, not_elem_of_cons. intros [Hne Hnin].
  rewrite filter_cons_False by congruence. auto.
Qed.

Lemma setitem_absent df col s : col ∉ columns df → setitem df col s = df.
Proof.
  unfold setitem, columns. induction df as [|c df IH]; [done|].
  rewrite !fmap_cons, not_elem_of_cons. intros [Hne Hnin].
  rewrite decide_False by congruence. f_equal. auto.
Qed.

Lemma NoDup_columns_middle pre c todo :
  NoDup (columns (pre ++ c :: todo)) →
  (name c ∉ columns pre) ∧ (name c ∉ columns todo).
Proof.
  unfold columns. rewrite fmap_app, fmap_cons. intros Hnd.
  apply NoDup_app in Hnd as (_ & Hdis & Hnd).
  apply NoDup_cons in Hnd as [Hnin _]. split; [|done].
  intros Hin. apply (Hdis _ Hin). left.
Qed.

Lemma getitem_middle pre c todo :
  NoDup (columns (pre ++ c :: todo)) → getitem (pre ++ c :: todo) (name c) = [c].
Proof.
  intros [H1 H2]%NoDup_columns_middle.
  rewrite getitem_app, (getitem_absent pre) by done.
  unfold getitem at 1. rewrite filter_cons_True by done.
  fold (getitem todo (name c)). by rewrite (getitem_absent todo).
Qed.

Lemma setitem_middle pre c todo s :
  NoDup (columns (pre ++ c :: todo)) →
  setitem (pre ++ c :: todo) (name c) s = pre ++ s :: todo.
Proof.
  intros [H1 H2]%NoDup_columns_middle.
  unfold setitem. rewrite fmap_app, fmap_cons, decide_True by done.
  fold (setitem pre (name c) s). fold (setitem todo (name c) s).
  by rewrite !setitem_absent.
Qed.

Lemma columns_replace_middle pre c s todo :
  name s = name c → columns (pre ++ s :: todo) = columns (pre ++ c :: todo).
Proof. intros E. unfold columns. rewrite !fmap_app, !fmap_cons. by rewrite E. Qed.

(* a loop whose body rewrites the column it names is a traversal *)
Lemma for_each_traverse (P : Series → Prop) `{∀ c, Decision (P c)}
    (f : Series → result Series) body pre todo :
  (∀ c c', f c = Ok c' → name c' = name c) →
  (∀ d c t, NoDup (columns (d ++ c :: t)) → P c →
     body (name c) (d ++ c :: t) = (c' <- f c ;; Ok (d ++ c' :: t))) →
  NoDup (columns (pre ++ todo)) →
  for_each (columns (filter P todo)) body (pre ++ todo)
  = (todo' <- traverse (λ c, if decide (P c) then f c else Ok c) todo ;;
     Ok (pre ++ todo')).
Proof.
  intros Hname Hbody. revert pre.
  induction todo as [|c todo IH]; intros pre Hnd; [done|].
  simpl traverse. destruct (decide (P c)) as [HP|HP].
  - rewrite filter_cons_True by done. unfold columns at 1.
    rewrite fmap_cons. fold (columns (filter P todo)). simpl for_each.
    rewrite Hbody by done. destruct (f c) as [c'|e] eqn:Ef; [|done].
    simpl. replace (pre ++ c' :: todo) with ((pre ++ [c']) ++ todo)
      by (by rewrite <-app_assoc).
    rewrite IH.
    + destruct (traverse _ todo); simpl; [|done]. by rewrite <-app_assoc.
    + rewrite <-app_assoc. simpl.
      rewrite (columns_replace_middle _ c) by eauto. done.
  - rewrite filter_cons_False by done. simpl.
    replace (pre ++ c :: todo) with ((pre ++ [c]) ++ todo)
      by (by rewrite <-app_assoc).
    rewrite IH by (by rewrite <-app_assoc).
    destruct (traverse _ todo); simpl; [|done]. by rewrite <-app_assoc.
Qed.

Lemma filter_all {A} (l : list A) : filter (λ _, True) l = l.
Proof. induction l as [|x l IH]; [done|]. rewrite filter_cons_True by done. by f_equal. Qed.

Lemma traverse_Ok (g : Series → Series) df :
  traverse (λ c, Ok (g c)) df = Ok (g <$> df).
Proof. induction df as [|c df IH]; [done|]. simpl. by rewrite IH. Qed.

Lemma traverse_ext f g df :
  (∀ c, c ∈ df → f c = g c) → traverse f df = traverse g df.
Proof.
  induction df as [|c df IH]; [done|]. intros Hfg. simpl.
  rewrite Hfg by left. destruct (g c); [|done]. simpl.
  rewrite IH; [done|]. intros c' Hc'. apply Hfg. by right.
Qed.

(** ** The three loops of [clean_data] on a frame with unique labels *)

Section stages.
Context `{Pandas}.

Lemma name_to_datetime c : name (to_datetime c) = name c.
Proof. unfold to_datetime. by destruct (sdtype c). Qed.

Lemma name_to_numeric c : name (to_numeric c) = name c.
Proof.
  unfold to_numeric. repeat case_match; done.
Qed.

Lemma name_date_step c : name (date_step c) = name c.
Proof. unfold date_step. case_match; [apply name_to_datetime|done]. Qed.

Lemma name_numeric_step c : name (numeric_step c) = name c.
Proof. unfold numeric_step. case_decide; [by rewrite name_to_numeric|done]. Qed.

Lemma name_fill_column c c' : fill_column c = Ok c' → name c' = name c.
Proof.
  unfold fill_column. case_match.
  - intros [= <-]. done.
  - destruct (mode0 (values c)); simpl; [|done]. intros [= <-]. done.
Qed.

Lemma convert_dates_unique df :
  NoDup (columns df) → convert_dates df = Ok (date_step <$> df).
Proof.
  intros Hnd. unfold convert_dates.
  replace (columns df) with (columns (filter (λ _, True) df))
    by (by rewrite filter_all).
  rewrite (for_each_traverse (λ _, True) (λ c, Ok (date_step c)) _ [] df).
  - simpl. by rewrite traverse_Ok.
  - intros c c' [= <-]. apply name_date_step.
  - intros d c t Hnd' _. unfold convert_date_column, date_step. simpl.
    destruct (is_date_column (name c)); [|done].
    by rewrite getitem_middle, setitem_middle.
  - done.
Qed.

Lemma convert_numeric_unique df :
  NoDup (columns df) → convert_numeric df = Ok (numeric_step <$> df).
Proof.
  intros Hnd. unfold convert_numeric, select_dtypes_object.
  rewrite (for_each_traverse (λ c, sdtype c = Object)
             (λ c, Ok (to_numeric (replace sentinels c))) _ [] df).
  - simpl. rewrite (traverse_ext _ (λ c, Ok (numeric_step c))).
    + by rewrite traverse_Ok.
    + intros c _. unfold numeric_step. by case_decide.
  - intros c c' [= <-]. by rewrite name_to_numeric.
  - intros d c t Hnd' _. unfold convert_numeric_column. simpl.
    rewrite getitem_middle, setitem_middle by done.
    assert (NoDup (columns (d ++ replace sentinels c :: t))) as Hnd''.
    { by rewrite (columns_replace_middle d c). }
    change (name c) with (name (replace sentinels c)).
    by rewrite getitem_middle, setitem_middle.
  - done.
Qed.

Lemma fill_missing_unique df :
  NoDup (columns df) → fill_missing df = traverse fill_column df.
Proof.
  intros Hnd. unfold fill_missing.
  replace (columns df) with (columns (filter (λ _, True) df))
    by (by rewrite filter_all).
  rewrite (for_each_traverse (λ _, True) fill_column _ [] df).
  - simpl. by destruct (traverse _ df).
  - apply name_fill_column.
  - intros d c t Hnd' _. unfold fill_missing_column.
    rewrite getitem_middle by done. destruct (fill_column c); simpl; [|done].
    by rewrite setitem_middle.
  - done.
Qed.

Lemma columns_fmap_step (g : Series → Series) df :
  (∀ c, name (g c) = name c) → columns (g <$> df) = columns df.
Proof.
  intros Hg. unfold columns. rewrite <-list_fmap_compose.
  apply list_fmap_ext. intros ? c ?. apply Hg.
Qed.

Lemma name_coerce c : name (coerce c) = name c.
Proof. unfold coerce. by rewrite name_numeric_step, name_date_step. Qed.

Lemma clean_data_unique df :
  NoDup (columns (rename header_mapping df)) →
  clean_data df =
    (df' <- traverse fill_column (coerce <$> rename header_mapping df) ;;
     Ok (drop_duplicates df',
         metadata_report (columns df) (drop_duplicates df'))).
Proof.
  intros Hnd. unfold clean_data.
  rewrite convert_dates_unique by done. simpl.
  rewrite convert_numeric_unique
    by (by rewrite columns_fmap_step by apply name_date_step). simpl.
  rewrite <-list_fmap_compose.
  rewrite fill_missing_unique
    by (by rewrite columns_fmap_step by apply name_coerce).
  done.
Qed.

End stages.

(** ** Type coercion *)

Section coercion.
Context `{Pandas}.

Lemma is_date_column_mapped h :
  is_date_column (mapped header_mapping h) = is_date_column h.
Proof.
  destruct (header_mapping !! h) as [v|] eqn:E.
  - rewrite (mapped_key h v E). apply header_mapping_lookup in E.
    repeat (apply elem_of_cons in E as [E|E]; [by simplify_eq|]).
    by apply elem_of_nil in E.
  - by rewrite (mapped_not_key h E).
Qed.

Lemma to_datetime_values c :
  sdtype c ≠ Datetime64 →
  values (to_datetime c) = to_datetime_cell (values c) <$> values c.
Proof. unfold to_datetime. by destruct (sdtype c). Qed.

Lemma to_datetime_dtype c : sdtype (to_datetime c) = Datetime64.
Proof. unfold to_datetime. by destruct (sdtype c) eqn:E. Qed.

Lemma to_datetime_length c : length (values (to_datetime c)) = length (values c).
Proof.
  unfold to_datetime. destruct (sdtype c); simpl; by rewrite ?length_fmap.
Qed.

(** C9.  On a frame whose mapped labels are unique, the loop of lines 48-50
    raises nothing and keeps every label in place.  A column whose mapped
    label contains "date" (whatever the case of its letters) becomes a
    datetime column of the same length: a column that is not yet a datetime
    column has each cell replaced by the instant it parses to, and by a
    missing cell when it fails to parse; a datetime column is kept.  A column
    without "date" in its label is not touched. *)
Theorem date_coercion (df : DataFrame) :
  NoDup (columns (rename header_mapping df)) →
  ∃ df', convert_dates (rename header_mapping df) = Ok df'
    ∧ columns df' = columns (rename header_mapping df)
    ∧ ∀ i c, df !! i = Some c →
        ∃ c', df' !! i = Some c'
          ∧ name c' = mapped header_mapping (name c)
          ∧ (is_date_column (mapped header_mapping (name c)) = true →
               sdtype c' = Datetime64
               ∧ length (values c') = length (values c)
               ∧ (sdtype c = Datetime64 → values c' = values c)
               ∧ (sdtype c ≠ Datetime64 →
                  ∀ j x, values c !! j = Some x →
                    values c' !! j = Some
                      match x with
                      | NA => NA
                      | _ => match parse_datetime (values c) x with
                             | Some t => VTime t
                             | None => NA
                             end
                      end))
          ∧ (is_date_column (mapped header_mapping (name c)) = false →
               sdtype c' = sdtype c ∧ values c' = values c).
Proof.
  intros Hnd. eexists. split; [by apply convert_dates_unique|].
  split; [apply columns_fmap_step, name_date_step|].
  intros i c Hi. rewrite list_lookup_fmap, rename_lookup, Hi. simpl.
  eexists. split; [done|]. unfold date_step. simpl.
  destruct (is_date_column (mapped header_mapping (name c))).
  - split; [by rewrite name_to_datetime|]. split; [|done]. intros _.
    split; [apply to_datetime_dtype|].
    split; [by rewrite to_datetime_length|]. split.
    + intros E. unfold to_datetime. simpl. by rewrite E.
    + intros E j x Hj. rewrite to_datetime_values by done. simpl.
      rewrite list_lookup_fmap, Hj. done.
  - done.
Qed.

End coercion.

Lemma date_coercion_witness :
  ∃ df', @convert_dates decimal_parsers (rename header_mapping dated_frame)
         = Ok df'
    ∧ columns df' = columns (rename header_mapping dated_frame)
    ∧ ∀ i c, dated_frame !! i = Some c →
        ∃ c', df' !! i = Some c'
          ∧ name c' = mapped header_mapping (name c)
          ∧ (is_date_column (mapped header_mapping (name c)) = true →
               sdtype c' = Datetime64
               ∧ length (values c') = length (values c)
               ∧ (sdtype c = Datetime64 → values c' = values c)
               ∧ (sdtype c ≠ Datetime64 →
                  ∀ j x, values c !! j = Some x →
                    values c' !! j = Some
                      match x with
                      | NA => NA
                      | _ => match @parse_datetime decimal_parsers
                                     (values c) x with
                             | Some t => VTime t
                             | None => NA
                             end
                      end))
          ∧ (is_date_column (mapped header_mapping (name c)) = false →
               sdtype c' = sdtype c ∧ values c' = values c).
Proof.
  apply (@date_coercion decimal_parsers dated_frame).
  apply (bool_decide_unpack _). vm_compute. exact I.
Defined.

(* the test of line 49 ignores the case of the letters *)
Example date_labels :
  is_date_column "Test Date" = true
  ∧ is_date_column "SAMPLE_DATE" = true
  ∧ is_date_column "Updated" = true
  ∧ is_date_column "Sample ID" = false.
Proof. done. Qed.

Section numeric_coercion.
Context `{Pandas}.

Lemma sentinels_lookup s :
  (s ∈ ["N/A"; "NA"; "<0.3"] → sentinels !! s = Some NA)
  ∧ (s ∉ ["N/A"; "NA"; "<0.3"] → sentinels !! s = None).
Proof.
  split.
  - intros Hs. repeat (apply elem_of_cons in Hs as [->|Hs]; [done|]).
    by apply elem_of_nil in Hs.
  - intros Hs. destruct (sentinels !! s) as [v|] eqn:E; [|done].
    apply elem_of_list_to_map_2 in E. exfalso. apply Hs.
    repeat (apply elem_of_cons in E as [E|E];
            [simplify_eq; repeat constructor|]).
    by apply elem_of_nil in E.
Qed.

(* the cells of the result, according to the storage type chosen *)
Lemma to_numeric_values s :
  values (to_numeric s) = as_float <$> (numeric_cell <$> values s)
  ∨ values (to_numeric s) = as_int <$> (numeric_cell <$> values s)
  ∨ values (to_numeric s) = numeric_cell <$> values s.
Proof.
  unfold to_numeric.
  destruct (_ || _); [by left|].
  destruct (existsb is_integer _); [by right; left|].
  right; right. by destruct (numeric_cell <$> values s).
Qed.

Lemma to_numeric_length s : length (values (to_numeric s)) = length (values s).
Proof.
  destruct (to_numeric_values s) as [->|[->| ->]]; by rewrite ?length_fmap.
Qed.

Lemma to_numeric_lookup s j x :
  values s !! j = Some x →
  ∃ y, values (to_numeric s) !! j = Some y
    ∧ (numeric_cell x = NA → y = NA)
    ∧ (∀ q, number_of (numeric_cell x) = Some q → number_of y = Some q).
Proof.
  intros Hj. destruct (to_numeric_values s) as [->|[->| ->]];
    rewrite !list_lookup_fmap, Hj; simpl; eexists; (split; [done|]).
  - split; [by intros ->|]. intros q. by destruct (numeric_cell x).
  - split; [by intros ->|]. intros q. by destruct (numeric_cell x).
  - eauto.
Qed.

(** C10.  On a frame with unique labels, the loop of lines 53-55 raises
    nothing and keeps every label in place; a column that is not of object
    type is not touched.  In a column of object type, cell by cell: a text
    that is one of "N/A", "NA", "<0.3" becomes missing; any other text that
    does not parse as a number becomes missing; any other text that parses
    as a number becomes that number; a missing cell stays missing.  The
    length of the column is kept, so a cell that fails leaves the others in
    place. *)
Theorem sentinel_numeric_coercion (df : DataFrame) :
  NoDup (columns df) →
  ∃ df', convert_numeric df = Ok df'
    ∧ columns df' = columns df
    ∧ ∀ i c, df !! i = Some c →
        ∃ c', df' !! i = Some c'
          ∧ name c' = name c
          ∧ (sdtype c ≠ Object → c' = c)
          ∧ (sdtype c = Object →
               length (values c') = length (values c)
               ∧ ∀ j x, values c !! j = Some x →
                   ∃ y, values c' !! j = Some y
                     ∧ (x = NA → y = NA)
                     ∧ (∀ s, x = VStr s → s ∈ ["N/A"; "NA"; "<0.3"] → y = NA)
                     ∧ (∀ s, x = VStr s → s ∉ ["N/A"; "NA"; "<0.3"] →
                          parse_number s = None → y = NA)
                     ∧ (∀ s n, x = VStr s → s ∉ ["N/A"; "NA"; "<0.3"] →
                          parse_number s = Some n →
                          number_of y = Some (number_value n))).
Proof.
  intros Hnd. eexists. split; [by apply convert_numeric_unique|].
  split; [apply columns_fmap_step, name_numeric_step|].
  intros i c Hi. rewrite list_lookup_fmap, Hi. simpl.
  eexists. split; [done|]. split; [apply name_numeric_step|].
  unfold numeric_step. split; [intros E; by rewrite decide_False|].
  intros E. rewrite decide_True by done.
  split; [rewrite to_numeric_length; simpl; by rewrite length_fmap|].
  intros j x Hj.
  destruct (to_numeric_lookup (replace sentinels c) j
              (replace_cell sentinels x)) as (y & Hy & Hna & Hnum).
  { simpl. by rewrite list_lookup_fmap, Hj. }
  exists y. split; [done|]. split_and!.
  - intros ->. by apply Hna.
  - intros s -> Hs. apply Hna. simpl.
    by rewrite (proj1 (sentinels_lookup s) Hs).
  - intros s -> Hs Hp. apply Hna. simpl.
    rewrite (proj2 (sentinels_lookup s) Hs). simpl. by rewrite Hp.
  - intros s n -> Hs Hp. apply Hnum. simpl.
    rewrite (proj2 (sentinels_lookup s) Hs). simpl. rewrite Hp.
    by destruct n.
Qed.

Lemma numeric_cell_kind x :
  match numeric_cell x with
  | NA | VInt _ | VFloat _ | VInf _ | VBool _ => True
  | VTime _ | VStr _ => False
  end.
Proof. destruct x; simpl; try done. by repeat case_match. Qed.

Lemma existsb_false {A} (f : A → bool) l x :
  existsb f l = false → x ∈ l → f x = false.
Proof.
  intros Hf Hx. destruct (f x) eqn:E; [|done].
  rewrite <-Hf. symmetry. apply existsb_exists. exists x.
  split; [by apply list_elem_of_In|done].
Qed.

(* whatever the column, the result of [to_numeric] is a typed column *)
Lemma wf_to_numeric s : wf_series (to_numeric s).
Proof.
  unfold wf_series, to_numeric.
  destruct (_ || _) eqn:Ew; simpl.
  { apply Forall_fmap, Forall_fmap, Forall_forall. intros x _. simpl.
    pose proof (numeric_cell_kind x). by destruct (numeric_cell x). }
  apply orb_false_elim in Ew as [Ew _].
  apply orb_false_elim in Ew as [Ef _].
  destruct (existsb is_integer _) eqn:Ei; simpl.
  - apply Forall_fmap, Forall_forall. intros y Hy. simpl.
    pose proof (existsb_false _ _ _ Ef Hy) as Hfl.
    apply list_elem_of_fmap in Hy as (x & -> & _).
    pose proof (numeric_cell_kind x).
    by destruct (numeric_cell x), (existsb is_unsigned _).
  - destruct (numeric_cell <$> values s) as [|v vs] eqn:E; simpl;
      [constructor|].
    rewrite <-E in *. apply Forall_forall. intros y Hy.
    pose proof (existsb_false _ _ _ Ef Hy) as Hfl.
    pose proof (existsb_false _ _ _ Ei Hy) as Hin.
    apply list_elem_of_fmap in Hy as (x & -> & _).
    pose proof (numeric_cell_kind x). by destruct (numeric_cell x).
Qed.



Lemma coerce_not_object c : sdtype (coerce c) ≠ Object.
Proof.
  unfold coerce, numeric_step. case_decide; [|done].
  unfold to_numeric. by repeat case_match.
Qed.

End numeric_coercion.

Lemma sentinel_numeric_coercion_witness :
  ∃ df', @convert_numeric decimal_parsers measured_frame = Ok df'
    ∧ columns df' = columns measured_frame
    ∧ ∀ i c, measured_frame !! i = Some c →
        ∃ c', df' !! i = Some c'
          ∧ name c' = name c
          ∧ (sdtype c ≠ Object → c' = c)
          ∧ (sdtype c = Object →
               length (values c') = length (values c)
               ∧ ∀ j x, values c !! j = Some x →
                   ∃ y, values c' !! j = Some y
                     ∧ (x = NA → y = NA)
                     ∧ (∀ s, x = VStr s → s ∈ ["N/A"; "NA"; "<0.3"] → y = NA)
                     ∧ (∀ s, x = VStr s → s ∉ ["N/A"; "NA"; "<0.3"] →
                          @parse_number decimal_parsers s = None → y = NA)
                     ∧ (∀ s n, x = VStr s → s ∉ ["N/A"; "NA"; "<0.3"] →
                          @parse_number decimal_parsers s = Some n →
                          number_of y = Some (number_value n))).
Proof.
  apply (@sentinel_numeric_coercion decimal_parsers measured_frame).
  apply (bool_decide_unpack _). vm_compute. exact I.
Defined.

(* 0.5 is read, the sentinel and the text become missing *)
Example coerce_measured :
  @convert_numeric decimal_parsers measured_frame
  = Ok [ mkSeries "Result Value" Float64
           [VFloat (Qc_of_Z 1 / Qc_of_Z 2)%Qc; NA; NA];
         mkSeries "Sample ID" Int64 [VInt 1; VInt 2; VInt 3] ].
Proof. apply (bool_decide_unpack _). by vm_compute. Qed.

(** ** Imputation *)

Lemma traverse_lookup f df df' i c :
  traverse f df = Ok df' → df !! i = Some c →
  ∃ c', f c = Ok c' ∧ df' !! i = Some c'.
Proof.
  revert df' i. induction df as [|a df IH]; intros df' i; [done|].
  simpl. destruct (f a) as [a'|] eqn:Ea; [|done]. simpl.
  destruct (traverse f df) as [df''|] eqn:Et; [|done]. simpl.
  intros [= <-]. destruct i as [|i]; simpl.
  - intros [= <-]. eauto.
  - intros Hi. by apply IH.
Qed.

Lemma traverse_length f df df' : traverse f df = Ok df' → length df' = length df.
Proof.
  revert df'. induction df as [|a df IH]; intros df'; simpl.
  - by intros [= <-].
  - destruct (f a); [|done]. simpl. destruct (traverse f df); [|done]. simpl.
    intros [= <-]. simpl. f_equal. by apply IH.
Qed.

Lemma fillna_not_missing v l : v ≠ NA → Forall (λ x, x ≠ NA) (fillna v l).
Proof.
  intros Hv. unfold fillna. apply Forall_fmap, Forall_forall. intros x _.
  simpl. by destruct x.
Qed.

Lemma fillna_unchanged v l : Forall (λ x, x ≠ NA) l → fillna v l = l.
Proof.
  unfold fillna. induction 1 as [|x l Hx _ IH]; [done|].
  rewrite fmap_cons, IH. by destruct x.
Qed.

Lemma fillna_NA l : fillna NA l = l.
Proof.
  unfold fillna. induction l as [|x l IH]; [done|].
  rewrite fmap_cons, IH. by destruct x.
Qed.


Lemma mkSeries_eta c : mkSeries (name c) (sdtype c) (values c) = c.
Proof. by destruct c. Qed.

Section numeric_columns.
Context `{Pandas}.

Lemma mean_present l :
  omap number_of l ≠ [] →
  mean l = float_cell (float_mean (number_of <$> l)).
Proof. unfold mean. by destruct (omap number_of l). Qed.

Lemma mean_all_missing l : Forall (λ x, x = NA) l → mean l = NA.
Proof.
  intros Hl. unfold mean.
  assert (omap number_of l = []) as ->; [|done].
  induction Hl as [|x l -> _ IH]; [done|]. exact IH.
Qed.

(* the mean of a column that holds both infinities is NaN *)
Lemma mean_infinities l : VInf false ∈ l → VInf true ∈ l → mean l = NA.
Proof.
  intros Hp Hn.
  assert (Infinity false ∈ omap number_of l) as Hp'
    by (apply list_elem_of_omap; by exists (VInf false)).
  rewrite mean_present.
  - rewrite float_mean_infinities; [done| |].
    + by apply (list_elem_of_fmap_2 number_of _ (VInf false)).
    + by apply (list_elem_of_fmap_2 number_of _ (VInf true)).
  - intros E. rewrite E in Hp'. by apply elem_of_nil in Hp'.
Qed.

Lemma fill_column_numeric c :
  is_numeric_dtype (sdtype c) = true →
  fill_column c
  = Ok (mkSeries (name c) (sdtype c) (fillna (mean (values c)) (values c))).
Proof. intros Hd. unfold fill_column. by rewrite Hd. Qed.


End numeric_columns.



(* the values [20.0, missing, 22.0] become [20.0, 21.0, 22.0] *)
Example impute_temperature :
  @fill_column decimal_parsers temperature_column
  = Ok (mkSeries "Temperature (°C)" Float64
          [VFloat (Qc_of_Z 20); VFloat (Qc_of_Z 21); VFloat (Qc_of_Z 22)]).
Proof. apply (bool_decide_unpack _). by vm_compute. Qed.

(** ** The order of [mode] *)

Lemma ascii_compare_refl a : Ascii.compare a a = Eq.
Proof. unfold Ascii.compare. apply N.compare_refl. Qed.

Lemma ascii_compare_lt_trans a b c :
  Ascii.compare a b = Lt → Ascii.compare b c = Lt → Ascii.compare a c = Lt.
Proof.
  unfold Ascii.compare. rewrite !N.compare_lt_iff. apply N.lt_trans.
Qed.

Lemma string_compare_trans s1 s2 s3 :
  String.compare s1 s2 ≠ Gt → String.compare s2 s3 ≠ Gt →
  String.compare s1 s3 ≠ Gt.
Proof.
  revert s2 s3. induction s1 as [|a s1 IH]; intros [|b s2] [|c s3]; simpl;
    try done.
  destruct (Ascii.compare a b) eqn:Eab; [| |done];
    destruct (Ascii.compare b c) eqn:Ebc; try done.
  - apply Ascii.compare_eq_iff in Eab as ->. rewrite Ebc. apply IH.
  - apply Ascii.compare_eq_iff in Eab as ->. by rewrite Ebc.
  - apply Ascii.compare_eq_iff in Ebc as <-. by rewrite Eab.
  - by rewrite (ascii_compare_lt_trans a b c).
Qed.

Lemma string_leb_trans s1 s2 s3 :
  String.leb s1 s2 = true → String.leb s2 s3 = true → String.leb s1 s3 = true.
Proof.
  unfold String.leb. intros H12 H23.
  pose proof (string_compare_trans s1 s2 s3) as Ht.
  destruct (String.compare s1 s2), (String.compare s2 s3),
    (String.compare s1 s3); try done; exfalso; by apply Ht.
Qed.

Global Instance cell_le_total : Total cell_le.
Proof.
  intros a b. unfold cell_le.
  destruct a as [|x|x|[]|x|x|x], b as [|y|y|[]|y|y|y]; simpl;
    try (by left); try (by right).
  - destruct (Z.le_ge_cases x y); [left|right]; by apply bool_decide_eq_true.
  - destruct (total Qcle x y); [left|right]; by apply bool_decide_eq_true.
  - destruct x, y; auto.
  - destruct (Z.le_ge_cases x y); [left|right]; by apply bool_decide_eq_true.
  - apply String.leb_total.
Qed.

Global Instance cell_le_trans : Transitive cell_le.
Proof.
  intros a b c. unfold cell_le.
  destruct a as [|x|x|[]|x|x|x], b as [|y|y|[]|y|y|y],
    c as [|z|z|[]|z|z|z]; simpl; try done.
  - rewrite !bool_decide_eq_true. lia.
  - rewrite !bool_decide_eq_true. apply Qcle_trans.
  - by destruct x, y, z.
  - rewrite !bool_decide_eq_true. lia.
  - apply string_leb_trans.
Qed.

Lemma cell_le_refl a : cell_le a a.
Proof. by destruct (total cell_le a a). Qed.

(** ** The most frequent values *)

Lemma elem_of_unique `{EqDecision A} (l : list A) x : x ∈ unique l ↔ x ∈ l.
Proof.
  induction l as [|a l IH]; [done|]. simpl.
  rewrite !elem_of_cons, list_elem_of_filter, IH.
  destruct (decide (x = a)); naive_solver.
Qed.

Lemma NoDup_unique `{EqDecision A} (l : list A) : NoDup (unique l).
Proof.
  induction l as [|a l IH]; simpl; [constructor|].
  apply NoDup_cons. split.
  - rewrite list_elem_of_filter. naive_solver.
  - by apply NoDup_filter.
Qed.

Lemma elem_of_dropna l x : x ∈ dropna l ↔ x ∈ l ∧ x ≠ NA.
Proof. unfold dropna. rewrite list_elem_of_filter. naive_solver. Qed.

Lemma elem_of_modes l x :
  x ∈ modes l ↔
  x ∈ dropna l
  ∧ count x (dropna l) = max_list ((λ y, count y (dropna l)) <$> dropna l).
Proof.
  unfold modes. rewrite list_elem_of_filter, elem_of_unique. naive_solver.
Qed.

Lemma modes_most_frequent l x y :
  x ∈ modes l → y ∈ dropna l → count y (dropna l) ≤ count x (dropna l).
Proof.
  rewrite elem_of_modes. intros [_ ->] Hy.
  apply max_list_elem_of_le.
  apply (list_elem_of_fmap_2 (λ y, count y (dropna l))). done.
Qed.

Lemma modes_nonempty l : dropna l ≠ [] → modes l ≠ [].
Proof.
  intros Hne.
  assert ((λ y, count y (dropna l)) <$> dropna l ≠ []) as Hc.
  { intros E%fmap_nil_inv. done. }
  apply max_list_elem_of in Hc.
  apply list_elem_of_fmap in Hc as (x & Hx & Hin).
  intros E. assert (x ∈ modes l) as Hm by (by rewrite elem_of_modes).
  rewrite E in Hm. by apply elem_of_nil in Hm.
Qed.

(* [s.mode()[0]] is the least of the most frequent values *)
Lemma mode0_spec l :
  (∃ x, x ∈ l ∧ x ≠ NA) →
  ∃ v, mode0 l = Ok v
    ∧ v ∈ modes l
    ∧ ∀ y, y ∈ modes l → cell_le v y.
Proof.
  intros (x & Hx & Hna). unfold mode0, mode.
  pose proof (merge_sort_Permutation cell_le (modes l)) as Hperm.
  pose proof (StronglySorted_merge_sort cell_le (modes l)) as Hsorted.
  destruct (merge_sort cell_le (modes l)) as [|v rest].
  - exfalso. apply (modes_nonempty l); [|symmetry; by apply Permutation_nil_l].
    intros E.
    assert (x ∈ dropna l) as Hin by (by rewrite elem_of_dropna).
    rewrite E in Hin. by apply elem_of_nil in Hin.
  - exists v. split; [done|]. split.
    + rewrite <-Hperm. left.
    + intros y Hy. rewrite <-Hperm in Hy.
      apply elem_of_cons in Hy as [->|Hy]; [apply cell_le_refl|].
      apply StronglySorted_inv in Hsorted as [_ Hall].
      rewrite Forall_forall in Hall. by apply Hall.
Qed.

Section categorical_columns.
Context `{Pandas}.

(** C5 (as amended).  A column whose storage type is neither float64 nor
    int64 and which has a present cell.  [fill_column] raises nothing; it
    keeps the label, the type and every present cell, and puts one value [v]
    in every missing cell, after which no cell is missing.  [v] is a present
    value of the column that occurs at least as often as any other, and among
    the values that occur as often as [v] it is the least one in the order of
    the values (for dates: the earliest), not the one that occurs first.  In
    [fill_missing], on a frame with unique labels, this result is the column
    found at the same place. *)
Theorem mode_imputation (c : Series) :
  is_numeric_dtype (sdtype c) = false →
  (∃ x, x ∈ values c ∧ x ≠ NA) →
  ∃ v c',
    mode0 (values c) = Ok v
    ∧ fill_column c = Ok c'
    ∧ v ∈ values c ∧ v ≠ NA
    ∧ (∀ y, y ∈ values c → y ≠ NA →
         count y (dropna (values c)) ≤ count v (dropna (values c)))
    ∧ (∀ y, y ∈ values c → y ≠ NA →
         count y (dropna (values c)) = count v (dropna (values c)) →
         cell_le v y)
    ∧ name c' = name c ∧ sdtype c' = sdtype c
    ∧ values c' = (λ x, if isna x then v else x) <$> values c
    ∧ Forall (λ x, x ≠ NA) (values c')
    ∧ ∀ df df' i, NoDup (columns df) → df !! i = Some c →
        fill_missing df = Ok df' → df' !! i = Some c'.
Proof.
  intros Hd Hex. destruct (mode0_spec _ Hex) as (v & Hv & Hin & Hleast).
  pose proof Hin as Hin'. rewrite elem_of_modes, elem_of_dropna in Hin'.
  destruct Hin' as [[Hvin Hvna] Htop].
  assert (fill_column c
          = Ok (mkSeries (name c) (sdtype c) (fillna v (values c)))) as Hfill.
  { unfold fill_column. by rewrite Hd, Hv. }
  eexists v, _. split; [done|]. split; [done|]. simpl. split_and!; try done.
  - intros y Hy Hyna. apply modes_most_frequent; [done|].
    by rewrite elem_of_dropna.
  - intros y Hy Hyna Hcount. apply Hleast.
    rewrite elem_of_modes, elem_of_dropna, Hcount. done.
  - by apply fillna_not_missing.
  - intros df df' i Hnd Hi Hfm. rewrite fill_missing_unique in Hfm by done.
    destruct (traverse_lookup _ _ _ _ _ Hfm Hi) as (c' & Hc' & Hi').
    rewrite Hfill in Hc'. by simplify_eq.
Qed.

End categorical_columns.

Lemma mode_imputation_witness :
  ∃ v c',
    mode0 (values tied_dates) = Ok v
    ∧ @fill_column decimal_parsers tied_dates = Ok c'
    ∧ v ∈ values tied_dates ∧ v ≠ NA
    ∧ (∀ y, y ∈ values tied_dates → y ≠ NA →
         count y (dropna (values tied_dates))
         ≤ count v (dropna (values tied_dates)))
    ∧ (∀ y, y ∈ values tied_dates → y ≠ NA →
         count y (dropna (values tied_dates))
         = count v (dropna (values tied_dates)) →
         cell_le v y)
    ∧ name c' = name tied_dates ∧ sdtype c' = sdtype tied_dates
    ∧ values c' = (λ x, if isna x then v else x) <$> values tied_dates
    ∧ Forall (λ x, x ≠ NA) (values c')
    ∧ ∀ df df' i, NoDup (columns df) → df !! i = Some tied_dates →
        @fill_missing decimal_parsers df = Ok df' → df' !! i = Some c'.
Proof.
  apply (@mode_imputation decimal_parsers tied_dates).
  - reflexivity.
  - exists (VTime 2). split; [left|done].
Defined.

(** C5, counterexample.  In [tied_dates] the two dates are tied and the
    later one, [VTime 2], occurs first; the missing cell is filled with the
    earlier one, [VTime 1]. *)
Lemma mode_first_occurrence_counterexample :
  values tied_dates !! 0 = Some (VTime 2)
  ∧ count (VTime 2) (dropna (values tied_dates))
    = count (VTime 1) (dropna (values tied_dates))
  ∧ @fill_column decimal_parsers tied_dates
    = Ok (mkSeries "Test Date" Datetime64 [VTime 2; VTime 1; VTime 1])
  ∧ @fill_column decimal_parsers tied_dates
    ≠ Ok (mkSeries "Test Date" Datetime64 (fillna (VTime 2) (values tied_dates))).
Proof. split_and!; [done|done|done|by vm_compute]. Qed.

(** ** Rows of a frame *)

Lemma row_S df i : row df (S i) = row (tail_frame df) i.
Proof.
  unfold row, tail_frame. rewrite <-list_fmap_compose.
  apply list_fmap_ext. intros ? c ?. simpl. by rewrite lookup_tail.
Qed.

Lemma rows_n_S n df : rows_n (S n) df = row df 0 :: rows_n n (tail_frame df).
Proof.
  unfold rows_n. simpl. f_equal. rewrite <-fmap_S_seq, <-list_fmap_compose.
  apply list_fmap_ext. intros ? i ?. apply row_S.
Qed.

Lemma select_nil_r {A} (mask : list bool) : select mask (@nil A) = [].
Proof. by destruct mask. Qed.

Lemma select_length {A} (mask : list bool) (l : list A) :
  length l = length mask → length (select mask l) = count_true mask.
Proof.
  unfold count_true. revert l.
  induction mask as [|b mask IH]; intros [|x l]; try done.
  simpl. intros [= Hl]. destruct b.
  - rewrite filter_cons_True by done. simpl. f_equal. by apply IH.
  - rewrite filter_cons_False by done. by apply IH.
Qed.

Lemma sublist_select {A} (mask : list bool) (l : list A) :
  select mask l `sublist_of` l.
Proof.
  revert l. induction mask as [|b mask IH]; intros [|x l]; simpl;
    try apply sublist_nil_l.
  destruct b; [by apply sublist_skip|by apply sublist_cons].
Qed.

Lemma tail_frame_length n df :
  Forall (λ c, length (values c) = S n) df →
  Forall (λ c, length (values c) = n) (tail_frame df).
Proof.
  unfold tail_frame. intros Hl. apply Forall_fmap.
  eapply Forall_impl; [done|]. intros c Hc. simpl in *.
  revert Hc. by destruct (values c); simpl; intros [= ?].
Qed.

Lemma rows_n_select mask df :
  Forall (λ c, length (values c) = length mask) df →
  rows_n (count_true mask) (select_rows mask df)
  = select mask (rows_n (length mask) df).
Proof.
  revert df. induction mask as [|b mask IH]; intros df Hl; [done|].
  simpl length in *. rewrite rows_n_S.
  pose proof (tail_frame_length _ _ Hl) as Hl'.
  assert (select_rows mask (tail_frame df)
          = if b then tail_frame (select_rows (b :: mask) df)
            else select_rows (b :: mask) df) as Htail.
  { unfold select_rows, tail_frame. destruct b.
    - rewrite <-!list_fmap_compose. apply Forall_fmap_ext.
      eapply Forall_impl; [exact Hl|]. intros c Hc. simpl in *.
      revert Hc. by destruct (values c); simpl; intros [= ?].
    - rewrite <-!list_fmap_compose. apply Forall_fmap_ext.
      eapply Forall_impl; [exact Hl|]. intros c Hc. simpl in *.
      revert Hc. by destruct (values c); simpl; intros [= ?]. }
  unfold count_true. destruct b.
  - rewrite filter_cons_True by done. simpl length. fold (count_true mask).
    rewrite rows_n_S. simpl select. rewrite <-IH, Htail by done. f_equal.
    unfold row, select_rows. rewrite <-list_fmap_compose.
    apply Forall_fmap_ext. eapply Forall_impl; [exact Hl|].
    intros c Hc. simpl in *. revert Hc.
    by destruct (values c); simpl; intros [= ?].
  - rewrite filter_cons_False by done. fold (count_true mask).
    simpl select. by rewrite <-IH, Htail.
Qed.

Lemma rows_select_rows mask df :
  Forall (λ c, length (values c) = length mask) df →
  nrows df = length mask →
  rows (select_rows mask df) = select mask (rows df).
Proof.
  intros Hl Hn. unfold rows. rewrite Hn. fold (rows_n (length mask) df).
  rewrite <-rows_n_select by done. unfold rows_n. do 2 f_equal.
  destruct df as [|c df]; simpl.
  - simpl in Hn. destruct mask; simplify_eq/=. done.
  - apply select_length. by inversion Hl.
Qed.

(** ** The marks of [duplicated] *)

Lemma existsb_seen {A} `{EqDecision A} (p : list A) (l : list A) x :
  existsb (λ j, bool_decide ((p ++ x :: l) !! j = (p ++ x :: l) !! length p))
          (seq 0 (length p))
  = bool_decide (x ∈ p).
Proof.
  rewrite list_lookup_middle by done.
  destruct (existsb _ _) eqn:E.
  - symmetry. apply bool_decide_eq_true.
    apply existsb_exists in E as (j & Hj & Hjx).
    apply bool_decide_eq_true in Hjx. apply in_seq in Hj.
    rewrite lookup_app_l in Hjx by lia.
    apply list_elem_of_lookup. eauto.
  - symmetry. apply bool_decide_eq_false. intros Hin.
    apply list_elem_of_lookup in Hin as [j Hj].
    assert (existsb (λ j, bool_decide ((p ++ x :: l) !! j = Some x))
              (seq 0 (length p)) = true) as E'; [|congruence].
    apply existsb_exists. exists j.
    pose proof (lookup_lt_Some _ _ _ Hj). split; [apply in_seq; lia|].
    apply bool_decide_eq_true. by rewrite lookup_app_l.
Qed.

Lemma mask_from_lookup {A} `{EqDecision A} (p l : list A) :
  (λ i, existsb (λ j, bool_decide ((p ++ l) !! j = (p ++ l) !! i)) (seq 0 i))
    <$> seq (length p) (length l)
  = mask_from p l.
Proof.
  revert p. induction l as [|x l IH]; intros p; [done|].
  simpl. f_equal; [apply existsb_seen|].
  specialize (IH (p ++ [x])). rewrite length_app, Nat.add_1_r in IH.
  rewrite <-IH. apply list_fmap_ext. intros ? i ?.
  by rewrite <-(assoc_L (++) p [x] l).
Qed.

Lemma select_mask_from {A} `{EqDecision A} (seen l : list A) :
  select (negb <$> mask_from seen l) l = filter (λ x, x ∉ seen) (unique l).
Proof.
  revert seen. induction l as [|x l IH]; intros seen; [done|].
  simpl. rewrite IH, filter_cons, list_filter_filter.
  assert (filter (λ y, y ∉ seen ++ [x]) (unique l)
          = filter (λ y, (y ∉ seen) ∧ (y ≠ x)) (unique l)) as ->.
  { apply list_filter_iff. intros y. rewrite elem_of_app, list_elem_of_singleton.
    naive_solver. }
  destruct (decide (x ∈ seen)).
  - rewrite bool_decide_eq_true_2, decide_False by auto. done.
  - rewrite bool_decide_eq_false_2, decide_True by done. done.
Qed.

Lemma select_first_occurrences {A} `{EqDecision A} (l : list A) :
  select (negb <$> mask_from [] l) l = unique l.
Proof.
  rewrite select_mask_from. rewrite (list_filter_iff _ (λ _, True)).
  - apply filter_all.
  - intros x. split; [done|]. intros _. apply not_elem_of_nil.
Qed.

Lemma lookup_rows df i : i < nrows df → rows df !! i = Some (row df i).
Proof.
  intros Hi. unfold rows. by rewrite list_lookup_fmap, lookup_seq_lt.
Qed.

Lemma length_rows df : length (rows df) = nrows df.
Proof. unfold rows. by rewrite length_fmap, length_seq. Qed.

Lemma length_duplicated df : length (duplicated df) = nrows df.
Proof. unfold duplicated. by rewrite length_fmap, length_seq. Qed.

Lemma existsb_ext_elem_of {A} (f g : A → bool) l :
  (∀ x, x ∈ l → f x = g x) → existsb f l = existsb g l.
Proof.
  induction l as [|a l IH]; intros Hfg; [done|]. simpl.
  rewrite Hfg by left. f_equal. apply IH. intros x Hx. apply Hfg. by right.
Qed.

Lemma duplicated_mask_from df : duplicated df = mask_from [] (rows df).
Proof.
  rewrite <-mask_from_lookup. simpl. rewrite length_rows.
  unfold duplicated. apply list_fmap_ext. intros k i Hk.
  apply lookup_seq in Hk as [-> Hk]. simpl.
  apply existsb_ext_elem_of. intros j Hj. apply elem_of_seq in Hj.
  rewrite !lookup_rows by lia. apply bool_decide_ext. split; congruence.
Qed.

Lemma duplicated_lookup df i :
  i < nrows df →
  (duplicated df !! i = Some true ↔ ∃ j, j < i ∧ row df j = row df i)
  ∧ (duplicated df !! i = Some false ↔ ∀ j, j < i → row df j ≠ row df i).
Proof.
  intros Hi. unfold duplicated. rewrite list_lookup_fmap, lookup_seq_lt by done.
  simpl. destruct (existsb _ _) eqn:E.
  - apply existsb_exists in E as (j & Hj & Hjx).
    apply bool_decide_eq_true in Hjx. apply in_seq in Hj.
    split; split; try done.
    + intros _. exists j. split; [lia|done].
    + intros Hall. destruct (Hall j); [lia|done].
  - split; split; try done.
    + intros (j & Hj & Hjx). exfalso.
      assert (existsb (λ j, bool_decide (row df j = row df i)) (seq 0 i)
              = true) as E'; [|congruence].
      apply existsb_exists. exists j. split; [apply in_seq; lia|].
      by apply bool_decide_eq_true.
    + intros _ j Hj Hjx.
      assert (existsb (λ j, bool_decide (row df j = row df i)) (seq 0 i)
              = true) as E'; [|congruence].
      apply existsb_exists. exists j. split; [apply in_seq; lia|].
      by apply bool_decide_eq_true.
Qed.

Lemma rows_drop_duplicates df :
  rectangular df →
  rows (drop_duplicates df) = select (negb <$> duplicated df) (rows df).
Proof.
  intros Hrect. unfold drop_duplicates. fold (select_rows (negb <$> duplicated df) df).
  apply rows_select_rows.
  - eapply Forall_impl; [exact Hrect|]. intros c Hc. simpl in *.
    by rewrite length_fmap, length_duplicated.
  - by rewrite length_fmap, length_duplicated.
Qed.

Lemma rows_drop_duplicates_unique df :
  rectangular df → rows (drop_duplicates df) = unique (rows df).
Proof.
  intros Hrect. rewrite rows_drop_duplicates by done.
  rewrite duplicated_mask_from. apply select_first_occurrences.
Qed.

Lemma columns_drop_duplicates df : columns (drop_duplicates df) = columns df.
Proof.
  unfold drop_duplicates, columns. rewrite <-list_fmap_compose.
  by apply list_fmap_ext.
Qed.

Lemma select_count {A} (mask : list bool) (l : list A) :
  length l = length mask →
  length (select (negb <$> mask) l) + count_true mask = length l.
Proof.
  unfold count_true. revert l.
  induction mask as [|b mask IH]; intros [|x l]; try done.
  intros [= Hl]. specialize (IH l Hl). rewrite fmap_cons. destruct b.
  - rewrite filter_cons_True by done. cbn [negb select length]. lia.
  - rewrite filter_cons_False by done. cbn [negb select length]. lia.
Qed.

(** C7.  On a frame whose columns have one length, [drop_duplicates] keeps
    the labels and selects rows: the rows of the result are the rows of the
    input that are not marked by [duplicated], in their order; row [i] is
    marked exactly when a row before it is equal to it in every column, and
    is not marked exactly when every row before it differs from it.  So the
    result is a sublist of the input rows, no two rows of the result are
    equal, every row of the input still occurs in the result, the result
    lists the distinct rows in the order of their first occurrence, and the
    number of rows goes down by the number of marked rows. *)
Theorem deduplication (df : DataFrame) :
  rectangular df →
  columns (drop_duplicates df) = columns df
  ∧ rows (drop_duplicates df) = select (negb <$> duplicated df) (rows df)
  ∧ (∀ i, i < nrows df →
       (duplicated df !! i = Some true ↔ ∃ j, j < i ∧ row df j = row df i)
       ∧ (duplicated df !! i = Some false ↔
          ∀ j, j < i → row df j ≠ row df i))
  ∧ rows (drop_duplicates df) `sublist_of` rows df
  ∧ NoDup (rows (drop_duplicates df))
  ∧ (∀ r, r ∈ rows df ↔ r ∈ rows (drop_duplicates df))
  ∧ rows (drop_duplicates df) = unique (rows df)
  ∧ length (rows (drop_duplicates df)) + count_true (duplicated df)
    = length (rows df).
Proof.
  intros Hrect. split_and!.
  - apply columns_drop_duplicates.
  - by apply rows_drop_duplicates.
  - apply duplicated_lookup.
  - rewrite rows_drop_duplicates by done. apply sublist_select.
  - rewrite rows_drop_duplicates_unique by done. apply NoDup_unique.
  - intros r. rewrite rows_drop_duplicates_unique by done.
    by rewrite elem_of_unique.
  - by apply rows_drop_duplicates_unique.
  - rewrite rows_drop_duplicates by done. apply select_count.
    by rewrite length_rows, length_duplicated.
Qed.

Lemma deduplication_witness :
  columns (drop_duplicates repeated_rows) = columns repeated_rows
  ∧ rows (drop_duplicates repeated_rows)
    = select (negb <$> duplicated repeated_rows) (rows repeated_rows)
  ∧ (∀ i, i < nrows repeated_rows →
       (duplicated repeated_rows !! i = Some true ↔
        ∃ j, j < i ∧ row repeated_rows j = row repeated_rows i)
       ∧ (duplicated repeated_rows !! i = Some false ↔
          ∀ j, j < i → row repeated_rows j ≠ row repeated_rows i))
  ∧ rows (drop_duplicates repeated_rows) `sublist_of` rows repeated_rows
  ∧ NoDup (rows (drop_duplicates repeated_rows))
  ∧ (∀ r, r ∈ rows repeated_rows ↔ r ∈ rows (drop_duplicates repeated_rows))
  ∧ rows (drop_duplicates repeated_rows) = unique (rows repeated_rows)
  ∧ length (rows (drop_duplicates repeated_rows))
    + count_true (duplicated repeated_rows)
    = length (rows repeated_rows).
Proof.
  apply (deduplication repeated_rows).
  repeat constructor.
Defined.

(* of two equal rows the first is kept, and one row is lost *)
Example drop_repeated_rows :
  drop_duplicates repeated_rows
  = [ mkSeries "Sample ID" Int64 [VInt 1; VInt 2];
      mkSeries "Result Value" Int64 [VInt 5; VInt 6] ]
  ∧ nrows (drop_duplicates repeated_rows) + 1 = nrows repeated_rows.
Proof. done. Qed.

(** ** Frames with a repeated label *)

Lemma length_getitem df col :
  length (getitem df col) = length (filter (λ h, h = col) (columns df)).
Proof.
  unfold getitem, columns. induction df as [|c df IH]; [done|].
  rewrite fmap_cons. destruct (decide (name c = col)).
  - rewrite !filter_cons_True by done. simpl. by rewrite IH.
  - by rewrite !filter_cons_False by done.
Qed.

Lemma getitem_name df col s : s ∈ getitem df col → name s = col.
Proof. unfold getitem. rewrite list_elem_of_filter. naive_solver. Qed.

Lemma columns_setitem df col s :
  name s = col → columns (setitem df col s) = columns df.
Proof.
  intros Hs. unfold setitem, columns. rewrite <-list_fmap_compose.
  apply list_fmap_ext. intros ? c ?. simpl. by case_decide; simplify_eq.
Qed.

Lemma for_each_columns (body : string → DataFrame → result DataFrame)
    cols df df' :
  (∀ col d d', body col d = Ok d' → columns d' = columns d) →
  for_each cols body df = Ok df' → columns df' = columns df.
Proof.
  intros Hbody. revert df. induction cols as [|col cols IH]; intros df; simpl.
  - by intros [= <-].
  - destruct (body col df) as [d|] eqn:E; [|done]. simpl. intros Hrest.
    rewrite (IH _ Hrest). by eapply Hbody.
Qed.

Lemma NoDup_count_one (l : list string) :
  (∀ x, x ∈ l → length (filter (λ h, h = x) l) = 1) → NoDup l.
Proof.
  induction l as [|a l IH]; intros Hone; [constructor|].
  assert (a ∉ l) as Hnin.
  { intros Hin. specialize (Hone a (list_elem_of_here a l)).
    rewrite filter_cons_True in Hone by done. simpl in Hone.
    assert (a ∈ filter (λ h, h = a) l) as Hf by (by apply list_elem_of_filter).
    destruct (filter (λ h, h = a) l); [by apply elem_of_nil in Hf|done]. }
  apply NoDup_cons. split; [done|]. apply IH. intros x Hx.
  specialize (Hone x (list_elem_of_further _ _ _ Hx)).
  rewrite filter_cons_False in Hone by (intros ->; done). done.
Qed.

Section repeated_labels.
Context `{Pandas}.

Lemma columns_convert_dates df df' :
  convert_dates df = Ok df' → columns df' = columns df.
Proof.
  apply for_each_columns. intros col d d'. unfold convert_date_column.
  destruct (is_date_column col); [|by intros [= <-]].
  destruct (getitem d col) as [|s [|]] eqn:E; try done. intros [= <-].
  apply columns_setitem. rewrite name_to_datetime.
  apply (getitem_name d). rewrite E. left.
Qed.

Lemma columns_convert_numeric df df' :
  convert_numeric df = Ok df' → columns df' = columns df.
Proof.
  apply for_each_columns. intros col d d'. unfold convert_numeric_column.
  destruct (getitem d col) as [|s [|]] eqn:E; try done.
  assert (name s = col) as Hs by (apply (getitem_name d); rewrite E; left).
  destruct (getitem (setitem d col (replace sentinels s)) col)
    as [|s' [|]] eqn:E'; try done.
  intros [= <-]. rewrite columns_setitem, columns_setitem; try done.
  rewrite name_to_numeric. eapply getitem_name. rewrite E'. left.
Qed.

Lemma columns_fill_missing_column col d d' :
  fill_missing_column col d = Ok d' → columns d' = columns d.
Proof.
  unfold fill_missing_column.
  destruct (getitem d col) as [|s [|]] eqn:E; try done.
  destruct (fill_column s) as [s'|] eqn:Es; [|done]. simpl. intros [= <-].
  apply columns_setitem. rewrite (name_fill_column _ _ Es).
  apply (getitem_name d). rewrite E. left.
Qed.

Lemma fill_missing_loop_unique cols df df' :
  for_each cols fill_missing_column df = Ok df' →
  ∀ col, col ∈ cols → length (getitem df col) = 1.
Proof.
  revert df. induction cols as [|c cols IH]; intros df; simpl.
  - intros _ col Hcol. by apply elem_of_nil in Hcol.
  - destruct (fill_missing_column c df) as [d|] eqn:E; [|done]. simpl.
    intros Hrest col [->|Hcol]%elem_of_cons.
    + unfold fill_missing_column in E.
      by destruct (getitem df c) as [|s [|]].
    + rewrite length_getitem, <-(columns_fill_missing_column _ _ _ E),
        <-length_getitem.
      by eapply IH.
Qed.

Lemma fill_missing_Ok_unique df df' :
  fill_missing df = Ok df' → NoDup (columns df).
Proof.
  intros Hfm. apply NoDup_count_one. intros x Hx.
  rewrite <-length_getitem. by eapply fill_missing_loop_unique.
Qed.

(* the pipeline ends only when the mapped labels are unique *)
Lemma clean_data_Ok_unique df r :
  clean_data df = Ok r → NoDup (columns (rename header_mapping df)).
Proof.
  unfold clean_data.
  destruct (convert_dates _) as [d1|] eqn:E1; [|done]. simpl.
  destruct (convert_numeric d1) as [d2|] eqn:E2; [|done]. simpl.
  destruct (fill_missing d2) as [d3|] eqn:E3; [|done]. simpl. intros _.
  rewrite <-(columns_convert_dates _ _ E1), <-(columns_convert_numeric _ _ E2).
  by eapply fill_missing_Ok_unique.
Qed.

End repeated_labels.

(** ** Columns without a present cell *)

Section missing_columns.
Context `{Pandas}.

Lemma fill_column_all_missing_numeric c :
  is_numeric_dtype (sdtype c) = true → Forall (λ x, x = NA) (values c) →
  fill_column c = Ok c.
Proof.
  intros Hd Hl. unfold fill_column.
  rewrite Hd, mean_all_missing, fillna_NA, mkSeries_eta by done. done.
Qed.

Lemma dropna_all_missing l : Forall (λ x, x = NA) l → dropna l = [].
Proof.
  unfold dropna. induction 1 as [|x l -> _ IH]; [done|].
  by rewrite filter_cons_False by naive_solver.
Qed.

(* a column that is neither float64 nor int64 and has no present cell makes
   line 62 raise KeyError *)
Lemma fill_column_all_missing_other c :
  is_numeric_dtype (sdtype c) = false → Forall (λ x, x = NA) (values c) →
  fill_column c = Raise KeyError.
Proof.
  intros Hd Hl. unfold fill_column, mode0, mode, modes.
  rewrite Hd, dropna_all_missing by done. done.
Qed.

End missing_columns.

Lemma sublist_all_missing (l k : list cell) :
  l `sublist_of` k → Forall (λ x, x = NA) k → Forall (λ x, x = NA) l.
Proof.
  intros Hs. rewrite !Forall_forall. intros Hk x Hx. apply Hk.
  by eapply elem_of_sublist.
Qed.

(** ** The pipeline as a whole *)

Lemma traverse_id f df :
  (∀ c, c ∈ df → f c = Ok c) → traverse f df = Ok df.
Proof.
  induction df as [|c df IH]; intros Hf; [done|]. simpl.
  rewrite Hf by left. simpl. rewrite IH; [done|].
  intros c' Hc'. apply Hf. by right.
Qed.

Lemma select_all {A} (n : nat) (l : list A) :
  length l = n → select (negb <$> replicate n false) l = l.
Proof.
  revert l. induction n as [|n IH]; intros [|x l]; try done.
  intros [= Hl]. simpl. f_equal. by apply IH.
Qed.

Lemma mask_from_NoDup {A} `{EqDecision A} (seen l : list A) :
  NoDup (seen ++ l) → mask_from seen l = replicate (length l) false.
Proof.
  revert seen. induction l as [|x l IH]; intros seen Hnd; [done|]. simpl.
  rewrite IH by (by rewrite <-(assoc_L (++))). f_equal.
  apply bool_decide_eq_false. apply NoDup_app in Hnd as (_ & Hdis & _).
  intros Hin. apply (Hdis _ Hin). left.
Qed.

Lemma drop_duplicates_NoDup df :
  rectangular df → NoDup (rows df) → drop_duplicates df = df.
Proof.
  intros Hrect Hnd. unfold drop_duplicates.
  rewrite duplicated_mask_from, mask_from_NoDup, length_rows by done.
  rewrite <-(list_fmap_id df) at 2. apply Forall_fmap_ext.
  eapply Forall_impl; [exact Hrect|]. intros c Hc. simpl in *.
  rewrite select_all by done. apply mkSeries_eta.
Qed.

Lemma lookup_drop_duplicates df i c :
  df !! i = Some c →
  ∃ c', drop_duplicates df !! i = Some c'
    ∧ name c' = name c ∧ sdtype c' = sdtype c
    ∧ values c' `sublist_of` values c.
Proof.
  intros Hi. unfold drop_duplicates. rewrite list_lookup_fmap, Hi. simpl.
  eexists. split; [done|]. simpl. split_and!; try done. apply sublist_select.
Qed.

Section fill_results.
Context `{Pandas}.

Lemma fill_column_returns c : fillable c ↔ ∃ c', fill_column c = Ok c'.
Proof.
  unfold fillable, fill_column. split.
  - intros [Hd|Hex].
    + rewrite Hd. eauto.
    + destruct (is_numeric_dtype (sdtype c)); [eauto|].
      destruct (mode0_spec _ Hex) as (v & -> & _). simpl. eauto.
  - intros [c' Hc']. destruct (is_numeric_dtype (sdtype c)); [by left|].
    right. unfold mode0, mode in Hc'.
    pose proof (merge_sort_Permutation cell_le (modes (values c))) as Hperm.
    destruct (merge_sort cell_le (modes (values c))) as [|v rest]; [done|].
    assert (v ∈ modes (values c)) as Hv by (rewrite <-Hperm; left).
    apply elem_of_modes in Hv as [Hv _]. apply elem_of_dropna in Hv.
    eauto.
Qed.

Lemma fill_column_raises c e : fill_column c = Raise e → e = KeyError.
Proof.
  unfold fill_column, mode0. destruct (is_numeric_dtype (sdtype c)); [done|].
  destruct (mode (values c)); simpl; [|done]. by intros [= <-].
Qed.

End fill_results.

Lemma traverse_returns f df :
  Forall (λ c, ∃ c', f c = Ok c') df ↔ ∃ df', traverse f df = Ok df'.
Proof.
  induction df as [|c df IH]; simpl.
  - split; [eauto|constructor].
  - rewrite Forall_cons, IH. split.
    + intros [[c' ->] [df' ->]]. simpl. eauto.
    + intros [df' Hdf']. destruct (f c) as [c'|]; [|done].
      destruct (traverse f df) as [df''|]; [|done]. eauto.
Qed.

Lemma traverse_raises f df e :
  traverse f df = Raise e → ∃ c, c ∈ df ∧ f c = Raise e.
Proof.
  induction df as [|c df IH]; simpl; [done|].
  destruct (f c) as [c'|e'] eqn:Ec; simpl.
  - destruct (traverse f df) as [df'|e'] eqn:Et; simpl; [done|].
    intros [= ->]. destruct IH as (c0 & Hin & Hc0); [done|].
    exists c0. split; [by right|done].
  - intros [= ->]. exists c. split; [left|done].
Qed.

Lemma traverse_Forall2 f df df' :
  traverse f df = Ok df' → Forall2 (λ c c', f c = Ok c') df df'.
Proof.
  revert df'. induction df as [|c df IH]; intros df'; simpl.
  - intros [= <-]. constructor.
  - destruct (f c) as [c'|] eqn:Ec; [|done]. simpl.
    destruct (traverse f df) as [df''|]; [|done]. simpl. intros [= <-].
    constructor; [done|]. by apply IH.
Qed.

Lemma rectangular_alt df :
  rectangular df ↔ ∃ n, Forall (λ c, length (values c) = n) df.
Proof.
  unfold rectangular. split; [eauto|]. intros [n Hn].
  destruct df as [|c df]; [constructor|]. simpl.
  pose proof Hn as Hn'. apply Forall_cons in Hn' as [-> _]. done.
Qed.

Section whole.
Context `{Pandas}.

Lemma clean_data_Ok df out meta :
  clean_data df = Ok (out, meta) →
  NoDup (columns (rename header_mapping df))
  ∧ ∃ filled,
      traverse fill_column (coerce <$> rename header_mapping df) = Ok filled
      ∧ out = drop_duplicates filled
      ∧ meta = metadata_report (columns df) out.
Proof.
  intros Hc. pose proof (clean_data_Ok_unique _ _ Hc) as Hnd.
  split; [done|]. rewrite clean_data_unique in Hc by done.
  destruct (traverse _ _) as [filled|]; [|done]. simpl in Hc.
  exists filled. by simplify_eq.
Qed.

Lemma length_coerce c : length (values (coerce c)) = length (values c).
Proof.
  unfold coerce, numeric_step, date_step.
  case_decide; rewrite ?to_numeric_length; simpl; rewrite ?length_fmap;
    case_match; by rewrite ?to_datetime_length.
Qed.

Lemma length_fill_column c c' :
  fill_column c = Ok c' → length (values c') = length (values c).
Proof.
  unfold fill_column, fillna. case_match.
  - intros [= <-]. simpl. by rewrite length_fmap.
  - destruct (mode0 _); [|done]. simpl. intros [= <-]. simpl.
    by rewrite length_fmap.
Qed.

(* [clean_data] ends exactly when the mapped labels are unique and every
   column that is not numeric after coercion has a present cell *)
Lemma clean_data_returns df :
  (∃ out meta, clean_data df = Ok (out, meta)) ↔
  NoDup (columns (rename header_mapping df))
  ∧ Forall (λ c, fillable (coerce c)) (rename header_mapping df).
Proof.
  split.
  - intros (out & meta & Hc).
    destruct (clean_data_Ok _ _ _ Hc) as (Hnd & filled & Hf & _).
    split; [done|].
    assert (∃ df', traverse fill_column
                     (coerce <$> rename header_mapping df) = Ok df') as Hex
      by eauto.
    apply traverse_returns in Hex. rewrite Forall_fmap in Hex.
    eapply Forall_impl; [exact Hex|]. intros c Hc'. simpl in *.
    by apply fill_column_returns.
  - intros [Hnd Hfill]. rewrite clean_data_unique by done.
    assert (∃ df', traverse fill_column
                     (coerce <$> rename header_mapping df) = Ok df')
      as [df' ->].
    { apply traverse_returns. rewrite Forall_fmap.
      eapply Forall_impl; [exact Hfill|]. intros c Hc'. simpl in *.
      by apply fill_column_returns. }
    simpl. eauto.
Qed.

(* with unique labels, the only exception is the KeyError of line 62 *)
Lemma clean_data_raises df e :
  NoDup (columns (rename header_mapping df)) →
  clean_data df = Raise e →
  e = KeyError
  ∧ ∃ c, c ∈ rename header_mapping df
      ∧ is_numeric_dtype (sdtype (coerce c)) = false
      ∧ Forall (λ x, x = NA) (values (coerce c)).
Proof.
  intros Hnd. rewrite clean_data_unique by done.
  destruct (traverse _ _) as [df'|e'] eqn:Et; [done|]. simpl.
  intros [= ->]. apply traverse_raises in Et as (c1 & Hin & Hc1).
  split; [by eapply fill_column_raises|].
  apply list_elem_of_fmap in Hin as (c & -> & Hin).
  exists c. split; [done|].
  destruct (is_numeric_dtype (sdtype (coerce c))) eqn:Hd.
  { unfold fill_column in Hc1. by rewrite Hd in Hc1. }
  split; [done|]. apply Forall_forall. intros x Hx.
  destruct (decide (x = NA)) as [|Hna]; [done|]. exfalso.
  assert (fillable (coerce c)) as Hf by (right; eauto).
  apply fill_column_returns in Hf as [c' Hc']. congruence.
Qed.

(* an entirely missing column that is not numeric stops the pipeline *)
Lemma clean_data_empty_column df c :
  NoDup (columns (rename header_mapping df)) →
  c ∈ rename header_mapping df →
  is_numeric_dtype (sdtype (coerce c)) = false →
  Forall (λ x, x = NA) (values (coerce c)) →
  clean_data df = Raise KeyError.
Proof.
  intros Hnd Hin Hd Hna.
  destruct (clean_data df) as [[out meta]|e] eqn:Hc.
  - exfalso.
    assert (∃ out meta, clean_data df = Ok (out, meta)) as Hex by eauto.
    apply clean_data_returns in Hex as [_ Hfill].
    rewrite Forall_forall in Hfill. specialize (Hfill c Hin).
    apply fill_column_returns in Hfill as [c' Hc'].
    by rewrite fill_column_all_missing_other in Hc'.
  - by destruct (clean_data_raises df e Hnd Hc) as [-> _].
Qed.

(* the rows of the result are pairwise distinct *)
Lemma clean_data_rows_distinct df out meta :
  rectangular df → clean_data df = Ok (out, meta) → NoDup (rows out).
Proof.
  intros Hrect Hc.
  destruct (clean_data_Ok _ _ _ Hc) as (_ & filled & Hf & -> & _).
  rewrite rows_drop_duplicates_unique; [apply NoDup_unique|].
  apply rectangular_alt. apply rectangular_alt in Hrect as [n Hn].
  exists n. apply traverse_Forall2 in Hf.
  assert (Forall (λ c, length (values c) = n)
            (coerce <$> rename header_mapping df)) as Hn'.
  { rewrite Forall_fmap. unfold rename. rewrite Forall_fmap.
    eapply Forall_impl; [exact Hn|]. intros c Hc'. simpl in *.
    by rewrite length_coerce. }
  clear Hn Hc. set (l0 := coerce <$> rename header_mapping df) in *.
  clearbody l0.
  induction Hf as [|c c' l l' Hcc' _ IH]; [constructor|].
  apply Forall_cons in Hn' as [Hc' Hl]. constructor; [|by apply IH].
  by rewrite (length_fill_column _ _ Hcc').
Qed.

End whole.

(* no date is left to take the mode of: line 62 raises KeyError *)
Example clean_undated :
  @clean_data decimal_parsers undated_frame = Raise KeyError.
Proof. done. Qed.

(* [df[col]] is a DataFrame at line 59 *)
Example clean_clashing :
  @clean_data decimal_parsers clashing_frame = Raise AttributeError.
Proof. done. Qed.

(** ** Metadata report *)

Lemma isnull_sum_zero l : Forall (λ x, x ≠ NA) l → isnull_sum l = 0.
Proof.
  unfold isnull_sum. induction 1 as [|x l Hx _ IH]; [done|].
  by rewrite filter_cons_False.
Qed.

Lemma sublist_not_missing (l k : list cell) :
  l `sublist_of` k → Forall (λ x, x ≠ NA) k → Forall (λ x, x ≠ NA) l.
Proof.
  intros Hs. rewrite !Forall_forall. intros Hk x Hx. apply Hk.
  by eapply elem_of_sublist.
Qed.

Section report.
Context `{Pandas}.

(* after imputation a column has no missing cell, unless it is a numeric
   column whose mean is NaN, which is returned as it is *)
Lemma fill_column_result c c' :
  fill_column c = Ok c' →
  Forall (λ x, x ≠ NA) (values c')
  ∨ (is_numeric_dtype (sdtype c) = true ∧ mean (values c) = NA ∧ c' = c).
Proof.
  unfold fill_column.
  destruct (is_numeric_dtype (sdtype c)) eqn:Hd.
  - intros [= <-]. simpl.
    destruct (decide (mean (values c) = NA)) as [E|E].
    + right. by rewrite E, fillna_NA, mkSeries_eta.
    + left. by apply fillna_not_missing.
  - destruct (mode0 (values c)) as [v|] eqn:Ev; [|done]. simpl.
    intros [= <-]. simpl. left. apply fillna_not_missing.
    unfold mode0, mode in Ev.
    pose proof (merge_sort_Permutation cell_le (modes (values c))) as Hperm.
    destruct (merge_sort cell_le (modes (values c))) as [|w rest]; [done|].
    simplify_eq. assert (v ∈ modes (values c)) as Hv by (rewrite <-Hperm; left).
    apply elem_of_modes in Hv as [Hv _]. by apply elem_of_dropna in Hv as [_ ?].
Qed.

(* so the report counts no missing cell, except in a numeric column whose
   mean was NaN *)
Lemma report_missing_counts df out meta :
  clean_data df = Ok (out, meta) →
  ∀ i c, out !! i = Some c →
    isnull_sum (values c) = 0
    ∨ (is_numeric_dtype (sdtype c) = true
       ∧ ∃ c1, (coerce <$> rename header_mapping df) !! i = Some c1
           ∧ mean (values c1) = NA
           ∧ values c `sublist_of` values c1).
Proof.
  intros Hc i c Hi.
  destruct (clean_data_Ok _ _ _ Hc) as (_ & filled & Hf & -> & _).
  destruct (filled !! i) as [c2|] eqn:Hi2.
  2:{ unfold drop_duplicates in Hi. by rewrite list_lookup_fmap, Hi2 in Hi. }
  destruct (lookup_drop_duplicates _ _ _ Hi2) as (c' & Hi' & _ & Ht & Hs).
  rewrite Hi in Hi'. simplify_eq.
  apply traverse_Forall2 in Hf.
  destruct (Forall2_lookup_r _ _ _ _ _ Hf Hi2) as (c1 & Hi1 & Hfill).
  destruct (fill_column_result _ _ Hfill) as [Hfull|(Hd & Hna & ->)].
  - left. apply isnull_sum_zero. by eapply sublist_not_missing.
  - right. rewrite Ht. split; [done|]. eauto.
Qed.

Lemma length_clean_data df out meta :
  clean_data df = Ok (out, meta) → length out = length df.
Proof.
  intros (_ & filled & Hf & -> & _)%clean_data_Ok.
  unfold drop_duplicates. rewrite length_fmap, (traverse_length _ _ _ Hf).
  unfold rename. by rewrite !length_fmap.
Qed.

(** C1 (as amended).  When [clean_data] ends, the frame it returns is the
    frame obtained by imputation followed by [drop_duplicates], and the
    report has one row per column of that frame: the row of a column carries
    its label, the original and the mapped header, its storage type, and the
    numbers of missing cells and of distinct present values counted in the
    returned column, that is after imputation and after the removal of
    duplicate rows. *)
Theorem metadata_counts (df out : DataFrame) (meta : list metadata_row) :
  clean_data df = Ok (out, meta) →
  (∃ filled,
     traverse fill_column (coerce <$> rename header_mapping df) = Ok filled
     ∧ out = drop_duplicates filled)
  ∧ length meta = length out
  ∧ ∀ i c, out !! i = Some c →
      ∃ r h, meta !! i = Some r
        ∧ columns df !! i = Some h
        ∧ index r = name c
        ∧ original_header r = h
        ∧ mapped_header r = mapped header_mapping h
        ∧ column_type r = dtype_str (sdtype c)
        ∧ missing_values r = isnull_sum (values c)
        ∧ unique_values r = nunique (values c).
Proof.
  intros Hc. pose proof (length_clean_data _ _ _ Hc) as Hlen.
  destruct (clean_data_Ok _ _ _ Hc) as (_ & filled & Hf & Hout & ->).
  split; [eauto|]. unfold metadata_report, columns. split.
  - rewrite length_zip_with, length_fmap. lia.
  - intros i c Hi. rewrite lookup_zip_with, list_lookup_fmap, Hi.
    destruct (df !! i) as [c0|] eqn:E0.
    + simpl. eexists _, _. split_and!; done.
    + apply lookup_ge_None in E0. apply lookup_lt_Some in Hi. lia.
Qed.

End report.

Lemma clean_temperature :
  @clean_data decimal_parsers temperature_input
  = Ok (temperature_output, temperature_report).
Proof. apply (bool_decide_unpack _). by vm_compute. Defined.

Example clean_temperature_objects :
  @clean_data decimal_parsers temperature_objects
  = Ok (temperature_output, temperature_report).
Proof. apply (bool_decide_unpack _). by vm_compute. Qed.

Lemma metadata_counts_witness :
  (∃ filled,
     traverse (@fill_column decimal_parsers)
       (@coerce decimal_parsers <$> rename header_mapping temperature_input)
     = Ok filled
     ∧ temperature_output = drop_duplicates filled)
  ∧ length temperature_report = length temperature_output
  ∧ ∀ i c, temperature_output !! i = Some c →
      ∃ r h, temperature_report !! i = Some r
        ∧ columns temperature_input !! i = Some h
        ∧ index r = name c
        ∧ original_header r = h
        ∧ mapped_header r = mapped header_mapping h
        ∧ column_type r = dtype_str (sdtype c)
        ∧ missing_values r = isnull_sum (values c)
        ∧ unique_values r = nunique (values c).
Proof.
  apply (@metadata_counts decimal_parsers temperature_input).
  exact clean_temperature.
Defined.

(** C1, counterexample.  For the column 20.0, "N/A", 22.0 the column after
    type coercion has one missing cell and two distinct present values, and
    the report of [clean_data] records no missing cell and three distinct
    values. *)
Lemma metadata_counts_counterexample :
  isnull_sum (values (@coerce decimal_parsers
                        (mkSeries "Temperature (°C)" Float64
                           [VFloat (Qc_of_Z 20); NA;
                            VFloat (Qc_of_Z 22)]))) = 1
  ∧ nunique (values (@coerce decimal_parsers
                       (mkSeries "Temperature (°C)" Float64
                          [VFloat (Qc_of_Z 20); NA;
                           VFloat (Qc_of_Z 22)]))) = 2
  ∧ ∃ out r,
      @clean_data decimal_parsers temperature_input = Ok (out, [r])
      ∧ missing_values r = 0 ∧ unique_values r = 3.
Proof.
  split; [by vm_compute|]. split; [by vm_compute|].
  exists temperature_output, (mkRow "Temperature (°C)" "Temp (°C)"
                               "Temperature (°C)" "float64" 0 3).
  split; [exact clean_temperature|done].
Qed.

(** ** Columns that are entirely missing *)

Section all_missing.
Context `{Pandas}.

(* where an entirely missing numeric column ends up *)
Lemma all_missing_column_output df i c :
  df !! i = Some c →
  is_numeric_dtype
    (sdtype (coerce (mkSeries (mapped header_mapping (name c)) (sdtype c)
                       (values c)))) = true →
  Forall (λ x, x = NA)
    (values (coerce (mkSeries (mapped header_mapping (name c)) (sdtype c)
                       (values c)))) →
  ∀ out meta, clean_data df = Ok (out, meta) →
    ∃ c', out !! i = Some c'
      ∧ name c' = mapped header_mapping (name c)
      ∧ sdtype c'
        = sdtype (coerce (mkSeries (mapped header_mapping (name c))
                            (sdtype c) (values c)))
      ∧ Forall (λ x, x = NA) (values c').
Proof.
  intros Hi Hd Hna out meta Hc.
  set (c1 := coerce _) in *.
  pose proof (fill_column_all_missing_numeric c1 Hd Hna) as Hfill.
  destruct (clean_data_Ok _ _ _ Hc) as (_ & filled & Hf & -> & _).
  assert ((coerce <$> rename header_mapping df) !! i = Some c1) as Hi1.
  { by rewrite list_lookup_fmap, rename_lookup, Hi. }
  destruct (traverse_lookup _ _ _ _ _ Hf Hi1) as (c2 & Hc2 & Hi2).
  rewrite Hfill in Hc2. simplify_eq.
  destruct (lookup_drop_duplicates _ _ _ Hi2) as (c' & Hi' & Hn & Ht & Hs).
  exists c'. split_and!; try done.
  - rewrite Hn. apply name_coerce.
  - by eapply sublist_all_missing.
Qed.

(* a numeric column never stops the pipeline *)
Lemma clean_data_returns_numeric df i c :
  df !! i = Some c →
  is_numeric_dtype
    (sdtype (coerce (mkSeries (mapped header_mapping (name c)) (sdtype c)
                       (values c)))) = true →
  NoDup (columns (rename header_mapping df)) →
  (∀ j c2, j ≠ i → rename header_mapping df !! j = Some c2 →
     fillable (coerce c2)) →
  ∃ out meta, clean_data df = Ok (out, meta).
Proof.
  intros Hi Hd Hnd Hothers. apply clean_data_returns. split; [done|].
  apply Forall_lookup. intros j c2 Hj.
  destruct (decide (j = i)) as [->|Hne]; [|by eapply Hothers].
  rewrite rename_lookup, Hi in Hj. simpl in Hj. simplify_eq. by left.
Qed.

(** C2 (as amended).  A column that, after type coercion, has storage type
    float64 or int64 and no present cell.  Its mean is missing and
    [fill_column] returns the column as it is, raising nothing.  When
    [clean_data] ends on a frame holding such a column, the column at the
    same place of the result carries the mapped label and the same type, and
    every one of its cells is missing.  And [clean_data] does end whenever
    the mapped labels are unique and each of the other columns is, after
    coercion, numeric or has a present cell. *)
Theorem all_missing_numeric_column (df : DataFrame) (i : nat) (c : Series) :
  df !! i = Some c →
  is_numeric_dtype
    (sdtype (coerce (mkSeries (mapped header_mapping (name c)) (sdtype c)
                       (values c)))) = true →
  Forall (λ x, x = NA)
    (values (coerce (mkSeries (mapped header_mapping (name c)) (sdtype c)
                       (values c)))) →
  let c1 := coerce (mkSeries (mapped header_mapping (name c)) (sdtype c)
                      (values c)) in
  mean (values c1) = NA
  ∧ fill_column c1 = Ok c1
  ∧ (∀ out meta, clean_data df = Ok (out, meta) →
       ∃ c', out !! i = Some c'
         ∧ name c' = mapped header_mapping (name c)
         ∧ sdtype c' = sdtype c1
         ∧ Forall (λ x, x = NA) (values c'))
  ∧ (NoDup (columns (rename header_mapping df)) →
     (∀ j c2, j ≠ i → rename header_mapping df !! j = Some c2 →
        fillable (coerce c2)) →
     ∃ out meta, clean_data df = Ok (out, meta)).
Proof.
  intros Hi Hd Hna c1. split; [by apply mean_all_missing|].
  split; [by apply fill_column_all_missing_numeric|].
  split; [by apply all_missing_column_output|].
  by apply (clean_data_returns_numeric df i c).
Qed.

End all_missing.

Lemma clean_below_detection :
  @clean_data decimal_parsers below_detection
  = Ok (below_detection_output, below_detection_report).
Proof. apply (bool_decide_unpack _). by vm_compute. Defined.

Lemma all_missing_numeric_column_witness :
  let c1 := @coerce decimal_parsers
              (mkSeries (mapped header_mapping "Result_Value") Object
                 [VStr "<0.3"; VStr "<0.3"]) in
  @mean decimal_parsers (values c1) = NA
  ∧ @fill_column decimal_parsers c1 = Ok c1
  ∧ (∀ out meta,
       @clean_data decimal_parsers below_detection = Ok (out, meta) →
       ∃ c', out !! 1 = Some c'
         ∧ name c' = mapped header_mapping "Result_Value"
         ∧ sdtype c' = sdtype c1
         ∧ Forall (λ x, x = NA) (values c'))
  ∧ (NoDup (columns (rename header_mapping below_detection)) →
     (∀ j c2, j ≠ 1 → rename header_mapping below_detection !! j = Some c2 →
        fillable (@coerce decimal_parsers c2)) →
     ∃ out meta, @clean_data decimal_parsers below_detection = Ok (out, meta)).
Proof.
  apply (@all_missing_numeric_column decimal_parsers below_detection 1
           (mkSeries "Result_Value" Object [VStr "<0.3"; VStr "<0.3"])).
  - reflexivity.
  - reflexivity.
  - repeat constructor.
Defined.

(** C2, counterexample.  After coercion both cells of "Result Value" are
    missing, and [clean_data] returns a frame in which they are still
    missing; it raises nothing. *)
Lemma empty_column_counterexample :
  values (@coerce decimal_parsers
            (mkSeries "Result Value" Object [VStr "<0.3"; VStr "<0.3"]))
  = [NA; NA]
  ∧ @clean_data decimal_parsers below_detection
    = Ok (below_detection_output, below_detection_report)
  ∧ ∀ e, @clean_data decimal_parsers below_detection ≠ Raise e.
Proof.
  split; [done|]. split; [exact clean_below_detection|].
  intros e. by rewrite clean_below_detection.
Qed.

(** ** Text columns *)

Lemma fmap_all_missing (f : cell → cell) l :
  Forall (λ x, f x = NA) l → f <$> l = replicate (length l) NA.
Proof.
  induction 1 as [|x l Hx _ IH]; [done|]. rewrite fmap_cons, Hx, IH. done.
Qed.

Lemma Forall_replicate_missing n : Forall (λ x, x = NA) (replicate n NA).
Proof. apply Forall_replicate. done. Qed.

Section text_columns.
Context `{Pandas}.

Lemma numeric_cell_not_a_number x :
  not_a_number x → numeric_cell (replace_cell sentinels x) = NA.
Proof.
  intros [->|(s & -> & Hs)]; [done|]. simpl.
  destruct (decide (s ∈ ["N/A"; "NA"; "<0.3"])) as [Hin|Hnin].
  - by rewrite (proj1 (sentinels_lookup s) Hin).
  - rewrite (proj2 (sentinels_lookup s) Hnin). simpl.
    destruct Hs as [? | ->]; done.
Qed.

Lemma coerce_text_column c :
  sdtype c = Object →
  is_date_column (name c) = false →
  values c ≠ [] →
  Forall not_a_number (values c) →
  coerce c = mkSeries (name c) Float64 (replicate (length (values c)) NA).
Proof.
  intros Hd Hdate Hne Hl. unfold coerce, date_step. rewrite Hdate.
  unfold numeric_step. rewrite decide_True by done.
  unfold to_numeric. simpl. rewrite <-list_fmap_compose.
  rewrite (fmap_all_missing (numeric_cell ∘ replace_cell sentinels)).
  - destruct (length (values c)) as [|n] eqn:E.
    { by destruct (values c). }
    cbn [replicate existsb is_floating orb].
    change (NA :: replicate n NA) with (replicate (S n) NA).
    rewrite (fmap_all_missing as_float), length_replicate; [done|].
    apply Forall_forall. by intros y ->%elem_of_replicate_inv.
  - eapply Forall_impl; [exact Hl|]. intros x. apply numeric_cell_not_a_number.
Qed.

(** C4.  A column of text (storage type object; every cell is missing, a
    sentinel, or a text that does not parse as a number) with a label that
    does not contain "date" and with a text that is not a sentinel.  After
    type coercion it is a float64 column of the same length with every cell
    missing; its mean is missing, and [fill_column] returns it as it is,
    raising nothing.  When [clean_data] ends on a frame holding such a
    column, the column at the same place of the result is a float64 column
    under the mapped label, every cell of which is missing: no text of the
    input is left in it.  And [clean_data] does end whenever the mapped
    labels are unique and each of the other columns is, after coercion,
    numeric or has a present cell. *)
Theorem text_column_all_missing (df : DataFrame) (i : nat) (c : Series) :
  df !! i = Some c →
  sdtype c = Object →
  is_date_column (name c) = false →
  Forall not_a_number (values c) →
  (∃ s, VStr s ∈ values c ∧ s ∉ ["N/A"; "NA"; "<0.3"]) →
  let c1 := coerce (mkSeries (mapped header_mapping (name c)) (sdtype c)
                      (values c)) in
  c1 = mkSeries (mapped header_mapping (name c)) Float64
         (replicate (length (values c)) NA)
  ∧ mean (values c1) = NA
  ∧ fill_column c1 = Ok c1
  ∧ (∀ out meta, clean_data df = Ok (out, meta) →
       ∃ c', out !! i = Some c'
         ∧ name c' = mapped header_mapping (name c)
         ∧ sdtype c' = Float64
         ∧ Forall (λ x, x = NA) (values c')
         ∧ ∀ s, VStr s ∉ values c')
  ∧ (NoDup (columns (rename header_mapping df)) →
     (∀ j c2, j ≠ i → rename header_mapping df !! j = Some c2 →
        fillable (coerce c2)) →
     ∃ out meta, clean_data df = Ok (out, meta)).
Proof.
  intros Hi Hd Hdate Hl (s & Hs & _) c1.
  assert (c1 = mkSeries (mapped header_mapping (name c)) Float64
                 (replicate (length (values c)) NA)) as Hc1.
  { subst c1. rewrite coerce_text_column; simpl; try done.
    - by rewrite is_date_column_mapped.
    - intros E. rewrite E in Hs. by apply elem_of_nil in Hs. }
  assert (Forall (λ x, x = NA) (values c1)) as Hna.
  { rewrite Hc1. apply Forall_replicate_missing. }
  assert (is_numeric_dtype (sdtype c1) = true) as Hnum by (by rewrite Hc1).
  split; [done|]. split; [by apply mean_all_missing|].
  split; [by apply fill_column_all_missing_numeric|].
  split; [|by apply (clean_data_returns_numeric df i c)].
  intros out meta Hc.
  destruct (all_missing_column_output df i c Hi Hnum Hna out meta Hc)
    as (c' & Hi' & Hn & Ht & Hall).
  exists c'. split_and!; try done.
  - fold c1 in Ht. by rewrite Ht, Hc1.
  - intros s' Hs'. rewrite Forall_forall in Hall. by specialize (Hall _ Hs').
Qed.

End text_columns.

Lemma text_column_all_missing_witness :
  let c1 := @coerce decimal_parsers
              (mkSeries (mapped header_mapping "Sample_ID") Object
                 [VStr "A1"; VStr "A1"]) in
  c1 = mkSeries (mapped header_mapping "Sample_ID") Float64
         (replicate 2 NA)
  ∧ @mean decimal_parsers (values c1) = NA
  ∧ @fill_column decimal_parsers c1 = Ok c1
  ∧ (∀ out meta,
       @clean_data decimal_parsers below_detection = Ok (out, meta) →
       ∃ c', out !! 0 = Some c'
         ∧ name c' = mapped header_mapping "Sample_ID"
         ∧ sdtype c' = Float64
         ∧ Forall (λ x, x = NA) (values c')
         ∧ ∀ s, VStr s ∉ values c')
  ∧ (NoDup (columns (rename header_mapping below_detection)) →
     (∀ j c2, j ≠ 0 → rename header_mapping below_detection !! j = Some c2 →
        fillable (@coerce decimal_parsers c2)) →
     ∃ out meta, @clean_data decimal_parsers below_detection = Ok (out, meta)).
Proof.
  apply (@text_column_all_missing decimal_parsers below_detection 0
           (mkSeries "Sample_ID" Object [VStr "A1"; VStr "A1"])).
  - reflexivity.
  - reflexivity.
  - reflexivity.
  - repeat (apply Forall_cons; split;
              [right; exists "A1"; split; [reflexivity|right; reflexivity]|]).
    apply Forall_nil_2.
  - exists "A1". split; [left|]. intros Hin.
    repeat (apply elem_of_cons in Hin as [Hin|Hin]; [discriminate Hin|]).
    by apply elem_of_nil in Hin.
Defined.

(** ** Frames that need no cleaning *)

Lemma rename_not_key df :
  Forall (λ c, header_mapping !! name c = None) df →
  rename header_mapping df = df.
Proof.
  intros Hk. unfold rename. rewrite <-(list_fmap_id df) at 2.
  apply Forall_fmap_ext. eapply Forall_impl; [exact Hk|]. intros c Hc.
  simpl in *. rewrite mapped_not_key by done. apply mkSeries_eta.
Qed.

Section no_cleaning.
Context `{Pandas}.

Lemma fill_column_no_missing c :
  Forall (λ x, x ≠ NA) (values c) → values c ≠ [] → fill_column c = Ok c.
Proof.
  intros Hl Hne. unfold fill_column.
  destruct (is_numeric_dtype (sdtype c)).
  - by rewrite fillna_unchanged, mkSeries_eta.
  - destruct (mode0_spec (values c)) as (v & -> & _).
    + destruct (values c) as [|x l]; [done|]. exists x.
      split; [left|]. by apply Forall_cons in Hl as [? _].
    + simpl. by rewrite fillna_unchanged, mkSeries_eta.
Qed.

Lemma coerce_typed c :
  sdtype c ≠ Object →
  (is_date_column (name c) = true → sdtype c = Datetime64) →
  coerce c = c.
Proof.
  intros Hobj Hdate. unfold coerce.
  assert (date_step c = c) as ->.
  { unfold date_step. destruct (is_date_column (name c)); [|done].
    unfold to_datetime. by rewrite Hdate. }
  unfold numeric_step. by rewrite decide_False.
Qed.

(** C3 (as amended).  A frame with at least one row, columns of one length
    and unique labels, none of which is a key of the header mapping; no cell
    is missing and no two rows are equal; no column is of object type, and
    every column with "date" in its label is a datetime column.  Then
    [clean_data] raises nothing and returns the frame as it is, with the
    report of that frame, in which every mapped header is the original
    header. *)
Theorem clean_typed_frame (df : DataFrame) :
  rectangular df →
  0 < nrows df →
  NoDup (columns df) →
  Forall (λ c, header_mapping !! name c = None) df →
  Forall (λ c, Forall (λ x, x ≠ NA) (values c)) df →
  NoDup (rows df) →
  Forall (λ c, sdtype c ≠ Object
               ∧ (is_date_column (name c) = true → sdtype c = Datetime64))
         df →
  clean_data df = Ok (df, metadata_report (columns df) df)
  ∧ ∀ r, r ∈ metadata_report (columns df) df →
      mapped_header r = original_header r.
Proof.
  intros Hrect Hrows Hnd Hkeys Hna Hrowsnd Htyped. split.
  - rewrite clean_data_unique by (by rewrite rename_not_key).
    rewrite rename_not_key by done.
    assert (coerce <$> df = df) as ->.
    { rewrite <-(list_fmap_id df) at 2. apply Forall_fmap_ext.
      eapply Forall_impl; [exact Htyped|]. intros c [? ?]. simpl.
      by apply coerce_typed. }
    rewrite traverse_id.
    + simpl. by rewrite drop_duplicates_NoDup.
    + intros c Hc. rewrite Forall_forall in Hna.
      apply fill_column_no_missing; [by apply Hna|].
      unfold rectangular in Hrect. rewrite Forall_forall in Hrect.
      specialize (Hrect c Hc). simpl in Hrect. intros E.
      rewrite E in Hrect. simpl in Hrect. lia.
  - intros r Hr. unfold metadata_report in Hr.
    apply list_elem_of_lookup in Hr as [i Hi].
    rewrite lookup_zip_with in Hi.
    unfold columns in Hi. rewrite list_lookup_fmap in Hi.
    destruct (df !! i) as [c|] eqn:Ec; [|done]. simpl in Hi.
    simplify_eq. simpl. apply mapped_not_key.
    rewrite Forall_forall in Hkeys. apply Hkeys.
    apply list_elem_of_lookup. eauto.
Qed.

End no_cleaning.

Lemma clean_typed_frame_witness :
  @clean_data decimal_parsers typed_frame
  = Ok (typed_frame, metadata_report (columns typed_frame) typed_frame)
  ∧ ∀ r, r ∈ metadata_report (columns typed_frame) typed_frame →
      mapped_header r = original_header r.
Proof.
  apply (@clean_typed_frame decimal_parsers typed_frame).
  - repeat constructor.
  - vm_compute. lia.
  - apply (bool_decide_unpack _). vm_compute. exact I.
  - repeat constructor.
  - repeat constructor; discriminate.
  - apply (bool_decide_unpack _). vm_compute. exact I.
  - repeat constructor; discriminate.
Defined.

(** C3, counterexample.  [text_frame] has standard headers, no missing cell,
    no sentinel and no two equal rows, and [clean_data] returns a frame in
    which both identifiers are missing. *)
Lemma clean_noop_counterexample :
  Forall (λ c, header_mapping !! name c = None) text_frame
  ∧ Forall (λ c, Forall (λ x, x ≠ NA ∧ ∀ s, x = VStr s → sentinels !! s = None)
                   (values c)) text_frame
  ∧ NoDup (rows text_frame)
  ∧ ∃ meta,
      @clean_data decimal_parsers text_frame = Ok (text_frame_output, meta)
      ∧ text_frame_output ≠ text_frame.
Proof.
  split; [repeat constructor|]. split.
  { repeat constructor; try discriminate; by intros s [= <-]. }
  split; [apply (bool_decide_unpack _); by vm_compute|].
  exists (metadata_report (columns text_frame) text_frame_output).
  split; [|discriminate].
  apply (bool_decide_unpack _). by vm_compute.
Qed.

(** * Further properties *)

(** ** File names *)

Lemma contains_char a b s :
  contains (String a EmptyString) (String b s)
  = bool_decide (a = b) || contains (String a EmptyString) s.
Proof. simpl. by rewrite andb_true_r. Qed.

Lemma contains_char_app a h t :
  contains (String a EmptyString) (h +:+ String a t) = true.
Proof.
  induction h as [|b h IH].
  - simpl. by rewrite bool_decide_eq_true_2.
  - change (String b h +:+ String a t) with (String b (h +:+ String a t)).
    rewrite contains_char, IH. apply orb_true_r.
Qed.

Lemma rsplit_last_None sep s :
  rsplit_last sep s = None ↔ contains (String sep EmptyString) s = false.
Proof.
  induction s as [|a s IH]; [done|].
  rewrite contains_char. simpl rsplit_last.
  destruct (rsplit_last sep s) as [[h t]|].
  - split; [done|]. intros [_ Hc]%orb_false_elim.
    apply IH in Hc. done.
  - destruct (decide (a = sep)) as [->|Hne].
    + rewrite bool_decide_eq_true_2 by done. done.
    + rewrite bool_decide_eq_false_2 by congruence. simpl. by rewrite <-IH.
Qed.

Lemma rsplit_last_Some sep s h t :
  rsplit_last sep s = Some (h, t) ↔
  s = h +:+ String sep t ∧ contains (String sep EmptyString) t = false.
Proof.
  revert h. induction s as [|a s IH]; intros h.
  - split; [done|]. intros [Hs _]. by destruct h.
  - simpl rsplit_last. destruct (rsplit_last sep s) as [[h' t']|] eqn:E.
    + split.
      * intros [= <- <-]. destruct (proj1 (IH h') eq_refl) as [-> Ht].
        done.
      * intros [Hs Ht]. destruct h as [|b h].
        { simpl in Hs. injection Hs as -> ->.
          apply rsplit_last_None in Ht. congruence. }
        simpl in Hs. injection Hs as -> Hs.
        assert (Some (h', t') = Some (h, t)) as [= -> ->]; [|done].
        apply IH. done.
    + destruct (decide (a = sep)) as [->|Hne].
      * split.
        { intros [= <- <-]. split; [done|]. by apply rsplit_last_None. }
        intros [Hs Ht]. destruct h as [|b h].
        { simpl in Hs. by injection Hs as ->. }
        simpl in Hs. injection Hs as -> Hs. exfalso.
        apply rsplit_last_None in E. rewrite Hs, contains_char_app in E.
        done.
      * split; [done|]. intros [Hs Ht]. destruct h as [|b h].
        { simpl in Hs. injection Hs as -> _. done. }
        simpl in Hs. injection Hs as -> Hs. exfalso.
        apply rsplit_last_None in E. rewrite Hs, contains_char_app in E.
        done.
Qed.

Lemma elem_of_ALLOWED_EXTENSIONS ext :
  ext ∈ ALLOWED_EXTENSIONS ↔ ext ∈ ["xlsx"; "xlsm"; "csv"].
Proof. unfold ALLOWED_EXTENSIONS. by rewrite elem_of_list_to_set. Qed.

Lemma allowed_file_cases filename :
  ∃ b, allowed_file filename = Some b
    ∧ (b = true ↔
       ∃ stem ext, filename = stem +:+ "." +:+ ext
         ∧ contains "." ext = false
         ∧ lower ext ∈ ["xlsx"; "xlsm"; "csv"]).
Proof.
  unfold allowed_file, rsplit1.
  destruct (contains "." filename) eqn:Hdot.
  - destruct (rsplit_last "." filename) as [[h t]|] eqn:E.
    + simpl. eexists. split; [done|].
      rewrite bool_decide_eq_true, elem_of_ALLOWED_EXTENSIONS.
      apply rsplit_last_Some in E as [-> Ht]. split.
      * intros Hin. by exists h, t.
      * intros (stem & ext & Hs & Hext & Hin).
        assert (rsplit_last "." (h +:+ String "." t) = Some (stem, ext))
          as E1 by (by apply rsplit_last_Some).
        assert (rsplit_last "." (h +:+ String "." t) = Some (h, t))
          as E2 by (by apply rsplit_last_Some).
        rewrite E1 in E2. by simplify_eq.
    + apply rsplit_last_None in E. congruence.
  - exists false. split; [done|]. split; [done|].
    intros (stem & ext & -> & _).
    change ("." +:+ ext) with (String "." ext) in Hdot.
    by rewrite contains_char_app in Hdot.
Qed.

(** X1.  [allowed_file] never fails on the index 1 and answers [True]
    exactly for the names made of a stem (which may be empty), a dot and an
    extension without a dot that is "xlsx", "xlsm" or "csv" up to the case of
    its letters: only the text after the last dot counts. *)
Theorem allowed_file_spec (filename : string) :
  ∃ b, allowed_file filename = Some b
    ∧ (b = true ↔
       ∃ stem ext, filename = stem +:+ "." +:+ ext
         ∧ contains "." ext = false
         ∧ lower ext ∈ ["xlsx"; "xlsm"; "csv"]).
Proof. apply allowed_file_cases. Qed.

(* the last extension decides, whatever its case; a name may be an extension
   alone *)
Example allowed_names :
  allowed_file "results.csv" = Some true
  ∧ allowed_file "Results.XLSX" = Some true
  ∧ allowed_file ".csv" = Some true
  ∧ allowed_file "results.csv.exe" = Some false
  ∧ allowed_file "results." = Some false
  ∧ allowed_file "csv" = Some false.
Proof. by vm_compute. Qed.

Lemma endswith_spec s suffix :
  endswith s suffix = true ↔ ∃ p, s = p +:+ suffix.
Proof.
  induction s as [|a s IH]; simpl.
  - rewrite orb_false_r, bool_decide_eq_true. split.
    + intros <-. by exists EmptyString.
    + intros [p Hp]. destruct p; [done|]. done.
  - rewrite orb_true_iff, bool_decide_eq_true, IH. split.
    + intros [<-|[p ->]]; [by exists EmptyString|]. by exists (String a p).
    + intros [[|b p] Hp]; [by left|]. right. simpl in Hp.
      injection Hp as -> ->. eauto.
Qed.

Lemma endswith_extension stem ext :
  contains "." ext = false →
  endswith (stem +:+ "." +:+ ext) ".csv" = bool_decide (ext = "csv").
Proof.
  intros Hext. destruct (decide (ext = "csv")) as [->|Hne].
  - rewrite bool_decide_eq_true_2 by done. apply endswith_spec. eauto.
  - rewrite bool_decide_eq_false_2 by done.
    destruct (endswith _ _) eqn:E; [|done]. exfalso.
    apply endswith_spec in E as [p Hp].
    assert (rsplit_last "." (stem +:+ String "." ext) = Some (stem, ext))
      as E1 by (by apply rsplit_last_Some).
    assert (rsplit_last "." (stem +:+ String "." ext) = Some (p, "csv"))
      as E2 by (by apply rsplit_last_Some).
    rewrite E1 in E2. by simplify_eq.
Qed.

(** X2.  Every path that [clean_data] reads with [pd.read_csv] is a name
    that [allowed_file] accepts.  A name that [allowed_file] accepts is read
    with [pd.read_csv] only when its extension is "csv" in lower case: with
    any other extension, "CSV" included, it is read with [pd.read_excel]. *)
Theorem load_allowed_file (pd_read_csv pd_read_excel : string → result DataFrame)
    (file_path : string) :
  (endswith file_path ".csv" = true →
     allowed_file file_path = Some true
     ∧ load pd_read_csv pd_read_excel file_path = pd_read_csv file_path)
  ∧ (allowed_file file_path = Some true →
     ∃ stem ext, file_path = stem +:+ "." +:+ ext
       ∧ contains "." ext = false
       ∧ lower ext ∈ ["xlsx"; "xlsm"; "csv"]
       ∧ load pd_read_csv pd_read_excel file_path
         = if decide (ext = "csv") then pd_read_csv file_path
           else pd_read_excel file_path).
Proof.
  split.
  - intros Hends. split; [|unfold load; by rewrite Hends].
    destruct (allowed_file_cases file_path) as (b & -> & Hb). f_equal.
    apply Hb. apply endswith_spec in Hends as [stem ->].
    exists stem, "csv". split; [reflexivity|]. split; [reflexivity|].
    apply elem_of_ALLOWED_EXTENSIONS. by vm_compute.
  - intros Hallowed.
    destruct (allowed_file_cases file_path) as (b & Hb' & Hb).
    rewrite Hallowed in Hb'. injection Hb' as <-.
    destruct (proj1 Hb eq_refl) as (stem & ext & -> & Hext & Hin).
    exists stem, ext. split_and!; try done.
    unfold load. rewrite endswith_extension by done.
    destruct (decide (ext = "csv")) as [->|Hne].
    + by rewrite bool_decide_eq_true_2.
    + by rewrite bool_decide_eq_false_2.
Qed.

Lemma load_allowed_file_witness :
  (allowed_file "data.csv" = Some true
   ∧ load (λ _, Raise ValueError) (λ _, Raise TypeError) "data.csv"
     = Raise ValueError)
  ∧ ∃ stem ext, "data.csv" = stem +:+ "." +:+ ext
      ∧ contains "." ext = false
      ∧ lower ext ∈ ["xlsx"; "xlsm"; "csv"]
      ∧ load (λ _, Raise ValueError) (λ _, Raise TypeError) "data.csv"
        = if decide (ext = "csv") then Raise ValueError else Raise TypeError.
Proof.
  destruct (load_allowed_file (λ _, Raise ValueError)
              (λ _, Raise TypeError) "data.csv") as [Hcsv Hallowed].
  split; [apply Hcsv|apply Hallowed]; reflexivity.
Defined.

(* an allowed name in upper case is not read as CSV *)
Example load_upper_case (pd_read_csv pd_read_excel : string → result DataFrame) :
  allowed_file "DATA.CSV" = Some true
  ∧ load pd_read_csv pd_read_excel "DATA.CSV" = pd_read_excel "DATA.CSV".
Proof. done. Qed.

(** ** Labels that the header mapping merges *)

Lemma mapped_eq h1 h2 :
  mapped header_mapping h1 = mapped header_mapping h2 →
  h1 = h2 ∨ header_mapping !! h1 = Some h2 ∨ header_mapping !! h2 = Some h1.
Proof.
  destruct (header_mapping !! h1) as [v1|] eqn:E1;
    destruct (header_mapping !! h2) as [v2|] eqn:E2.
  - rewrite (mapped_key _ _ E1), (mapped_key _ _ E2). intros <-. left.
    apply header_mapping_lookup in E1, E2.
    repeat (apply elem_of_cons in E1 as [E1|E1];
            [repeat (apply elem_of_cons in E2 as [E2|E2];
                     [by simplify_eq|]);
             by apply elem_of_nil in E2|]).
    by apply elem_of_nil in E1.
  - rewrite (mapped_key _ _ E1), (mapped_not_key _ E2). intros <-. auto.
  - rewrite (mapped_not_key _ E1), (mapped_key _ _ E2). intros ->. auto.
  - rewrite (mapped_not_key _ E1), (mapped_not_key _ E2). auto.
Qed.

Lemma NoDup_fmap_inj_on {A B} (f : A → B) (l : list A) :
  NoDup (f <$> l) → ∀ x y, x ∈ l → y ∈ l → f x = f y → x = y.
Proof.
  intros Hnd x y [i Hi]%list_elem_of_lookup [j Hj]%list_elem_of_lookup Hxy.
  assert (i = j) as ->; [|congruence].
  apply (NoDup_lookup (f <$> l) i j (f x)); [done| |].
  - by rewrite list_lookup_fmap, Hi.
  - by rewrite list_lookup_fmap, Hj, Hxy.
Qed.

Lemma NoDup_rename df :
  NoDup (columns df) →
  NoDup (columns (rename header_mapping df)) ↔
  ∀ k v, header_mapping !! k = Some v → k ∈ columns df → v ∉ columns df.
Proof.
  intros Hnd. rewrite columns_rename. split.
  - intros Hnd' k v Hkv Hk Hv.
    assert (k = v) as ->.
    { apply (NoDup_fmap_inj_on _ _ Hnd'); [done|done|].
      rewrite (mapped_key _ _ Hkv). symmetry. apply mapped_not_key.
      by eapply mapped_value_not_key. }
    apply mapped_value_not_key in Hkv as Hv'. congruence.
  - intros Hfree. apply NoDup_fmap_2_strong; [|done].
    intros x y Hx Hy [->|[Hxy|Hyx]]%mapped_eq; [done| |].
    + by destruct (Hfree x y).
    + by destruct (Hfree y x).
Qed.

Section merged_labels.
Context `{Pandas}.

(** X3.  On a frame with unique labels, [rename] produces a repeated label
    exactly when the frame holds both a key of the header mapping and the
    label this key is mapped to (as "Sample_ID" beside "Sample ID"); on such
    a frame [clean_data] raises an exception. *)
Theorem rename_merges_labels (df : DataFrame) :
  NoDup (columns df) →
  (NoDup (columns (rename header_mapping df)) ↔
   ∀ k v, header_mapping !! k = Some v → k ∈ columns df → v ∉ columns df)
  ∧ ∀ k v, header_mapping !! k = Some v → k ∈ columns df → v ∈ columns df →
      ∃ e, clean_data df = Raise e.
Proof.
  intros Hnd. split; [by apply NoDup_rename|].
  intros k v Hkv Hk Hv.
  destruct (clean_data df) as [r|e] eqn:Hc; [|eauto]. exfalso.
  apply clean_data_Ok_unique in Hc.
  by apply (proj1 (NoDup_rename df Hnd) Hc k v).
Qed.

End merged_labels.

Lemma rename_merges_labels_witness :
  (NoDup (columns (rename header_mapping clashing_frame)) ↔
   ∀ k v, header_mapping !! k = Some v → k ∈ columns clashing_frame →
     v ∉ columns clashing_frame)
  ∧ ∀ k v, header_mapping !! k = Some v → k ∈ columns clashing_frame →
      v ∈ columns clashing_frame →
      ∃ e, @clean_data decimal_parsers clashing_frame = Raise e.
Proof.
  apply (@rename_merges_labels decimal_parsers clashing_frame).
  apply (bool_decide_unpack _). vm_compute. exact I.
Defined.

(** ** Frames with labels that are not texts *)

Lemma labels_labelled df : labels (labelled <$> df) = Text <$> columns df.
Proof. unfold labels, columns. by rewrite <-!list_fmap_compose. Qed.

Lemma rename_labels_labelled m df :
  rename_labels m (labelled <$> df) = labelled <$> rename m df.
Proof. unfold rename_labels, rename. by rewrite <-!list_fmap_compose. Qed.

Lemma labels_rename_labels m f :
  labels (rename_labels m f) = mapped_label m <$> labels f.
Proof. unfold labels, rename_labels. by rewrite <-!list_fmap_compose. Qed.

Lemma as_frame_labelled df : as_frame (labelled <$> df) = Some df.
Proof.
  induction df as [|c df IH]; [done|]. rewrite fmap_cons.
  cbn [as_frame text_of label_of labelled]. rewrite IH.
  unfold series. simpl. by rewrite mkSeries_eta.
Qed.

Lemma as_frame_Some f df : as_frame f = Some df → f = labelled <$> df.
Proof.
  revert df. induction f as [|c f IH]; intros df; simpl.
  - by intros [= <-].
  - destruct c as [[s|z] d l]; simpl; [|done].
    destruct (as_frame f) as [df'|]; [|done]. intros [= <-].
    rewrite fmap_cons. by rewrite <-(IH df').
Qed.

Lemma as_frame_None f : as_frame f = None → ∃ z, Number z ∈ labels f.
Proof.
  induction f as [|c f IH]; simpl; [done|].
  destruct c as [[s|z] d l]; simpl.
  - destruct (as_frame f); [done|]. intros _.
    destruct IH as [z Hz]; [done|]. exists z. by right.
  - intros _. exists z. left.
Qed.

Lemma texts_Text ss : texts (Text <$> ss) = Some ss.
Proof.
  induction ss as [|x ss IH]; [done|]. rewrite fmap_cons.
  cbn [texts text_of]. by rewrite IH.
Qed.

Lemma filter_labelled df s :
  filter (λ c, label_of c = Text s) (labelled <$> df)
  = labelled <$> getitem df s.
Proof.
  unfold getitem. induction df as [|c df IH]; [done|]. rewrite fmap_cons.
  destruct (decide (name c = s)).
  - rewrite !filter_cons_True by (simpl; congruence).
    by rewrite fmap_cons, IH.
  - by rewrite !filter_cons_False by (simpl; congruence).
Qed.

Lemma filter_label_absent f l :
  l ∉ labels f → filter (λ c, label_of c = l) f = [].
Proof.
  induction f as [|c f IH]; [done|]. unfold labels. rewrite fmap_cons.
  intros [Hne Hnin]%not_elem_of_cons.
  rewrite filter_cons_False by congruence. by apply IH.
Qed.

Lemma filter_label_unique f l :
  NoDup (labels f) → l ∈ labels f →
  ∃ c, filter (λ c, label_of c = l) f = [c].
Proof.
  induction f as [|c f IH]; [by intros _ ?%elem_of_nil|].
  unfold labels. rewrite fmap_cons. intros [Hnin Hnd]%NoDup_cons Hl.
  destruct (decide (label_of c = l)) as [<-|Hne].
  - rewrite filter_cons_True by done. exists c.
    by rewrite filter_label_absent.
  - rewrite filter_cons_False by done. apply IH; [done|].
    by apply elem_of_cons in Hl as [|Hl].
Qed.

Section labelled_frames.
Context `{Pandas}.

Lemma convert_date_label_labelled s df :
  convert_date_label (Text s) (labelled <$> df)
  = (df' <- convert_date_column s df ;; Ok (labelled <$> df')).
Proof.
  unfold convert_date_label, convert_date_column.
  destruct (is_date_column s); [|done]. rewrite filter_labelled.
  destruct (getitem df s) as [|c [|c2 l]] eqn:E; try done.
  assert (name c = s) as Hc by (apply (getitem_name df); rewrite E; left).
  simpl. f_equal. unfold setitem. rewrite <-!list_fmap_compose.
  apply list_fmap_ext. intros i c' _. simpl.
  destruct (decide (name c' = s)).
  - rewrite decide_True by congruence. unfold series. simpl.
    by rewrite <-Hc, mkSeries_eta.
  - by rewrite decide_False by congruence.
Qed.

Lemma for_each_labelled cols df :
  for_each (Text <$> cols) convert_date_label (labelled <$> df)
  = (df' <- for_each cols convert_date_column df ;; Ok (labelled <$> df')).
Proof.
  revert df. induction cols as [|col cols IH]; intros df; [done|].
  rewrite fmap_cons. cbn [for_each]. rewrite convert_date_label_labelled.
  destruct (convert_date_column col df); cbn [bind for_each]; [apply IH|done].
Qed.

(* on a frame whose labels are texts, [clean_data_labelled] is [clean_data] *)
Lemma clean_data_labelled_text df :
  clean_data_labelled (labelled <$> df) = clean_data df.
Proof.
  unfold clean_data_labelled, clean_data, convert_dates.
  rewrite rename_labels_labelled, !labels_labelled, for_each_labelled.
  destruct (for_each _ _ _) as [d|]; [|done]. simpl.
  by rewrite as_frame_labelled, texts_Text.
Qed.

Lemma labels_convert_date_label col f f' :
  convert_date_label col f = Ok f' → labels f' = labels f.
Proof.
  unfold convert_date_label. destruct col as [s|z]; [|done].
  destruct (is_date_column s); [|by intros [= <-]].
  destruct (filter _ f) as [|c [|c2 l]]; try done. intros [= <-].
  unfold labels. rewrite <-list_fmap_compose.
  apply list_fmap_ext. intros i c' _. simpl.
  case_decide; [|done]. simpl. by rewrite name_to_datetime.
Qed.

(* a number among the labels stops the loop of lines 48-50 *)
Lemma for_each_number cols f :
  NoDup (labels f) → cols ⊆ labels f → (∃ z, Number z ∈ cols) →
  for_each cols convert_date_label f = Raise AttributeError.
Proof.
  revert f. induction cols as [|col cols IH]; intros f Hnd Hsub [z Hz];
    [by apply elem_of_nil in Hz|].
  destruct col as [s|z']; [|done].
  apply elem_of_cons in Hz as [|Hz]; [done|].
  assert (∃ f', convert_date_label (Text s) f = Ok f') as [f' Hf'].
  { unfold convert_date_label. destruct (is_date_column s); [|eauto].
    destruct (filter_label_unique f (Text s) Hnd) as [c ->]; [|eauto].
    apply Hsub. left. }
  cbn [for_each]. rewrite Hf'. cbn [bind].
  pose proof (labels_convert_date_label _ _ _ Hf') as Hl.
  apply IH; [by rewrite Hl| |eauto].
  rewrite Hl. intros l Hin. apply Hsub. by right.
Qed.

Lemma clean_data_labelled_number f :
  NoDup (labels (rename_labels header_mapping f)) →
  (∃ z, Number z ∈ labels f) →
  clean_data_labelled f = Raise AttributeError.
Proof.
  intros Hnd [z Hz]. unfold clean_data_labelled.
  rewrite for_each_number; [done|done|done|].
  exists z. rewrite labels_rename_labels.
  by apply (list_elem_of_fmap_2 (mapped_label header_mapping) _ (Number z)).
Qed.

(* a frame on which the loop of lines 48-50 ends has text labels only *)
Lemma for_each_texts cols f f' :
  for_each cols convert_date_label f = Ok f' →
  ∀ z, Number z ∉ cols.
Proof.
  revert f. induction cols as [|col cols IH]; intros f; cbn [for_each].
  - intros _ z Hz. by apply elem_of_nil in Hz.
  - destruct col as [s|z']; [|done].
    destruct (convert_date_label (Text s) f) as [d|]; [|done]. cbn [bind].
    intros Hrest z [|Hz]%elem_of_cons; [done|]. by eapply IH.
Qed.

Lemma clean_data_labelled_Ok f r :
  clean_data_labelled f = Ok r → ∃ df, as_frame f = Some df.
Proof.
  unfold clean_data_labelled.
  destruct (for_each _ _ _) as [d|] eqn:E; [|done]. intros _.
  destruct (as_frame f) as [df|] eqn:Ef; [eauto|]. exfalso.
  apply as_frame_None in Ef as [z Hz].
  apply (for_each_texts _ _ _ E z). rewrite labels_rename_labels.
  by apply (list_elem_of_fmap_2 (mapped_label header_mapping) _ (Number z)).
Qed.

(** X4.  [clean_data], on a frame as it is read, returns rather than raises
    exactly when every label is a text, the mapped labels are unique, and
    every column whose storage type after coercion is neither float64 nor
    int64 has a present cell. *)
Theorem clean_data_ends (f : LabelledFrame) :
  (∃ out meta, clean_data_labelled f = Ok (out, meta)) ↔
  ∃ df, as_frame f = Some df
    ∧ NoDup (columns (rename header_mapping df))
    ∧ ∀ c, c ∈ rename header_mapping df →
        is_numeric_dtype (sdtype (coerce c)) = true
        ∨ ∃ x, x ∈ values (coerce c) ∧ x ≠ NA.
Proof.
  split.
  - intros (out & meta & Hc).
    destruct (clean_data_labelled_Ok _ _ Hc) as [df Hdf]. exists df.
    split; [done|]. apply as_frame_Some in Hdf as ->.
    rewrite clean_data_labelled_text in Hc.
    assert (∃ out meta, clean_data df = Ok (out, meta)) as Hex by eauto.
    apply clean_data_returns in Hex as [Hnd Hfill].
    by rewrite Forall_forall in Hfill.
  - intros (df & Hdf & Hnd & Hfill). apply as_frame_Some in Hdf as ->.
    setoid_rewrite clean_data_labelled_text.
    apply clean_data_returns. by rewrite Forall_forall.
Qed.

(** X5.  On a frame, as it is read, whose mapped labels are unique,
    [clean_data] raises two exceptions only: the AttributeError of
    [col.lower()] (line 49), exactly when some label is a number, and the
    KeyError of [mode()[0]] (line 62), exactly when every label is a text
    and some column is, after coercion, neither float64 nor int64 and
    without a present cell. *)
Theorem clean_data_exceptions (f : LabelledFrame) :
  NoDup (labels (rename_labels header_mapping f)) →
  (∀ e, clean_data_labelled f = Raise e → e = AttributeError ∨ e = KeyError)
  ∧ (clean_data_labelled f = Raise AttributeError ↔
     ∃ z, Number z ∈ labels f)
  ∧ (clean_data_labelled f = Raise KeyError ↔
     ∃ df c, as_frame f = Some df
       ∧ c ∈ rename header_mapping df
       ∧ is_numeric_dtype (sdtype (coerce c)) = false
       ∧ Forall (λ x, x = NA) (values (coerce c))).
Proof.
  intros Hnd. destruct (as_frame f) as [df|] eqn:Ef.
  - pose proof (as_frame_Some _ _ Ef) as ->.
    rewrite clean_data_labelled_text.
    assert (NoDup (columns (rename header_mapping df))) as Hnd'.
    { rewrite rename_labels_labelled, labels_labelled in Hnd.
      apply (NoDup_fmap_1 Text), Hnd. }
    split_and!.
    + intros e He. right. by destruct (clean_data_raises df e Hnd' He).
    + split.
      * intros He. by destruct (clean_data_raises df _ Hnd' He).
      * intros [z Hz]. rewrite labels_labelled in Hz.
        by apply list_elem_of_fmap in Hz as (? & ? & _).
    + split.
      * intros He. destruct (clean_data_raises df _ Hnd' He) as [_ Hex].
        destruct Hex as (c & ?). by exists df, c.
      * intros (df' & c & [= <-] & Hin & Hd & Hna).
        by eapply clean_data_empty_column.
  - pose proof (as_frame_None _ Ef) as Hz.
    rewrite (clean_data_labelled_number f Hnd Hz). split_and!.
    + intros e [= <-]. by left.
    + done.
    + split; [done|]. by intros (df & c & ? & _).
Qed.

End labelled_frames.

Lemma clean_data_exceptions_witness :
  (∀ e, @clean_data_labelled decimal_parsers numbered_frame = Raise e →
        e = AttributeError ∨ e = KeyError)
  ∧ (@clean_data_labelled decimal_parsers numbered_frame
     = Raise AttributeError ↔
     ∃ z, Number z ∈ labels numbered_frame)
  ∧ (@clean_data_labelled decimal_parsers numbered_frame = Raise KeyError ↔
     ∃ df c, as_frame numbered_frame = Some df
       ∧ c ∈ rename header_mapping df
       ∧ is_numeric_dtype (sdtype (@coerce decimal_parsers c)) = false
       ∧ Forall (λ x, x = NA) (values (@coerce decimal_parsers c))).
Proof.
  apply (@clean_data_exceptions decimal_parsers numbered_frame).
  apply (bool_decide_unpack _). vm_compute. exact I.
Defined.

(* the number 2024 in the header row: line 49 raises AttributeError; the
   same frame under text labels is cleaned *)
Example clean_numbered :
  @clean_data_labelled decimal_parsers numbered_frame = Raise AttributeError
  ∧ ∃ r, @clean_data_labelled decimal_parsers
           (labelled <$> [ mkSeries "Sample_ID" Int64 [VInt 1; VInt 2];
                           mkSeries "2024" Float64
                             [VFloat (Qc_of_Z 5); VFloat (Qc_of_Z 6)] ])
         = Ok r.
Proof. split; [done|]. eexists. by vm_compute. Qed.

(** ** The shape of the result *)

Lemma length_unique_le `{EqDecision A} (l : list A) :
  length (unique l) ≤ length l.
Proof.
  induction l as [|x l IH]; [done|]. simpl.
  pose proof (length_filter (λ y, y ≠ x) (unique l)). lia.
Qed.

Lemma rectangular_drop_duplicates df :
  rectangular df → rectangular (drop_duplicates df).
Proof.
  intros Hrect. apply rectangular_alt.
  exists (count_true (negb <$> duplicated df)).
  unfold drop_duplicates. apply Forall_fmap.
  eapply Forall_impl; [exact Hrect|]. intros c Hc. simpl in *.
  apply select_length. by rewrite length_fmap, length_duplicated.
Qed.

Lemma nrows_drop_duplicates df :
  rectangular df → nrows (drop_duplicates df) = length (unique (rows df)).
Proof.
  intros Hrect. by rewrite <-length_rows, rows_drop_duplicates_unique.
Qed.

Lemma drop_duplicates_fixed df :
  rectangular df → drop_duplicates (drop_duplicates df) = drop_duplicates df.
Proof.
  intros Hrect. apply drop_duplicates_NoDup.
  - by apply rectangular_drop_duplicates.
  - rewrite rows_drop_duplicates_unique by done. apply NoDup_unique.
Qed.

(** X11.  On a frame whose columns have one length, removing the duplicate
    rows a second time changes nothing, and the result has again columns of
    one length, with at most as many rows as the input and at least one row
    when the input has one. *)
Theorem drop_duplicates_idempotent (df : DataFrame) :
  rectangular df →
  drop_duplicates (drop_duplicates df) = drop_duplicates df
  ∧ rectangular (drop_duplicates df)
  ∧ nrows (drop_duplicates df) ≤ nrows df
  ∧ (0 < nrows df → 0 < nrows (drop_duplicates df)).
Proof.
  intros Hrect. split_and!.
  - by apply drop_duplicates_fixed.
  - by apply rectangular_drop_duplicates.
  - rewrite nrows_drop_duplicates by done. rewrite <-(length_rows df).
    apply length_unique_le.
  - rewrite nrows_drop_duplicates by done. rewrite <-(length_rows df).
    destruct (rows df); simpl; lia.
Qed.

Lemma drop_duplicates_idempotent_witness :
  drop_duplicates (drop_duplicates repeated_rows) = drop_duplicates repeated_rows
  ∧ rectangular (drop_duplicates repeated_rows)
  ∧ nrows (drop_duplicates repeated_rows) ≤ nrows repeated_rows
  ∧ (0 < nrows repeated_rows → 0 < nrows (drop_duplicates repeated_rows)).
Proof.
  apply (drop_duplicates_idempotent repeated_rows).
  repeat constructor.
Defined.

Section shape.
Context `{Pandas}.

Lemma sdtype_fill_column c c' : fill_column c = Ok c' → sdtype c' = sdtype c.
Proof.
  unfold fill_column. case_match.
  - by intros [= <-].
  - destruct (mode0 _); [|done]. simpl. by intros [= <-].
Qed.

(* the columns after imputation, one for each column of the input *)
Lemma filled_columns df filled :
  traverse fill_column (coerce <$> rename header_mapping df) = Ok filled →
  Forall2
    (λ c c2, fill_column
               (coerce (mkSeries (mapped header_mapping (name c)) (sdtype c)
                          (values c))) = Ok c2)
    df filled.
Proof.
  intros Hf. apply traverse_Forall2 in Hf. unfold rename in Hf.
  by rewrite !Forall2_fmap_l in Hf.
Qed.

Lemma filled_names df filled :
  traverse fill_column (coerce <$> rename header_mapping df) = Ok filled →
  columns filled = mapped header_mapping <$> columns df.
Proof.
  intros Hf%filled_columns. unfold columns.
  induction Hf as [|c c2 l l2 Hc _ IH]; [done|].
  rewrite !fmap_cons, IH. f_equal.
  by rewrite (name_fill_column _ _ Hc), name_coerce.
Qed.

Lemma filled_lengths df filled n :
  Forall (λ c, length (values c) = n) df →
  traverse fill_column (coerce <$> rename header_mapping df) = Ok filled →
  Forall (λ c, length (values c) = n) filled.
Proof.
  intros Hn Hf%filled_columns.
  induction Hf as [|c c2 l l2 Hc _ IH]; [constructor|].
  apply Forall_cons in Hn as [Hn Hl]. constructor; [|by apply IH].
  by rewrite (length_fill_column _ _ Hc), length_coerce.
Qed.

Lemma filled_rectangular df filled :
  rectangular df →
  traverse fill_column (coerce <$> rename header_mapping df) = Ok filled →
  rectangular filled ∧ nrows filled = nrows df.
Proof.
  intros Hrect Hf.
  pose proof (filled_lengths df filled (nrows df) Hrect Hf) as Hn.
  split; [apply rectangular_alt; eauto|].
  apply filled_columns in Hf. destruct Hf as [|c c2 l l2 Hc _]; [done|].
  simpl. by apply Forall_cons in Hn as [Hn _].
Qed.

(** X6.  When [clean_data] returns, the result has one column for each
    column of the input, in the same order and under the mapped labels, and
    the report has one row for each of them.  If the columns of the input
    have one length, so have the columns of the result; the result has at
    most as many rows as the input, and at least one row when the input has
    one. *)
Theorem clean_data_shape (df out : DataFrame) (meta : list metadata_row) :
  clean_data df = Ok (out, meta) →
  columns out = mapped header_mapping <$> columns df
  ∧ length out = length df
  ∧ length meta = length df
  ∧ (rectangular df →
     rectangular out
     ∧ nrows out ≤ nrows df
     ∧ (0 < nrows df → 0 < nrows out)).
Proof.
  intros Hc. destruct (clean_data_Ok _ _ _ Hc) as (_ & filled & Hf & -> & ->).
  pose proof (filled_names _ _ Hf) as Hnames.
  assert (length (drop_duplicates filled) = length df) as Hlen.
  { rewrite <-(length_fmap name (drop_duplicates filled)).
    fold (columns (drop_duplicates filled)).
    rewrite columns_drop_duplicates, Hnames. unfold columns.
    by rewrite !length_fmap. }
  split_and!.
  - by rewrite columns_drop_duplicates.
  - done.
  - unfold metadata_report, columns.
    rewrite length_zip_with, length_fmap. lia.
  - intros Hrect. destruct (filled_rectangular _ _ Hrect Hf) as [Hr Hn].
    split; [by apply rectangular_drop_duplicates|].
    rewrite nrows_drop_duplicates, <-Hn, <-(length_rows filled) by done.
    split; [apply length_unique_le|].
    destruct (rows filled); simpl; lia.
Qed.

End shape.

Lemma clean_data_shape_witness :
  columns below_detection_output
  = mapped header_mapping <$> columns below_detection
  ∧ length below_detection_output = length below_detection
  ∧ length below_detection_report = length below_detection
  ∧ (rectangular below_detection →
     rectangular below_detection_output
     ∧ nrows below_detection_output ≤ nrows below_detection
     ∧ (0 < nrows below_detection → 0 < nrows below_detection_output)).
Proof.
  apply (@clean_data_shape decimal_parsers below_detection).
  exact clean_below_detection.
Defined.

(** ** The types of the result *)


Section types.
Context `{Pandas}.




(* where each column of the result comes from *)
Lemma result_columns df out meta :
  clean_data df = Ok (out, meta) →
  Forall2
    (λ c0 c, ∃ c2,
       fill_column
         (coerce (mkSeries (mapped header_mapping (name c0)) (sdtype c0)
                    (values c0))) = Ok c2
       ∧ name c = name c2 ∧ sdtype c = sdtype c2
       ∧ values c `sublist_of` values c2)
    df out.
Proof.
  intros Hc. destruct (clean_data_Ok _ _ _ Hc) as (_ & filled & Hf & -> & _).
  apply filled_columns in Hf. unfold drop_duplicates.
  apply Forall2_fmap_r. eapply Forall2_impl; [exact Hf|].
  intros c0 c2 Hc2. simpl. exists c2. split_and!; try done.
  apply sublist_select.
Qed.


End types.


(** ** The rows of the report *)

Lemma isnull_sum_dropna l : isnull_sum l + length (dropna l) = length l.
Proof.
  unfold isnull_sum, dropna. induction l as [|x l IH]; [done|].
  destruct (decide (x = NA)).
  - rewrite filter_cons_True, filter_cons_False by auto. simpl. lia.
  - rewrite filter_cons_False, filter_cons_True by auto. simpl. lia.
Qed.

Lemma report_counts_bound l : isnull_sum l + nunique l ≤ length l.
Proof.
  unfold nunique. pose proof (length_unique_le (dropna l)).
  pose proof (isnull_sum_dropna l). lia.
Qed.

Lemma isnull_sum_all_missing l :
  Forall (λ x, x = NA) l → isnull_sum l = length l ∧ nunique l = 0.
Proof.
  intros Hl. pose proof (isnull_sum_dropna l) as Hsum.
  unfold nunique. rewrite dropna_all_missing in * by done. simpl in *.
  split; [lia|done].
Qed.

Lemma metadata_report_cons h hs c df :
  metadata_report (h :: hs) (c :: df)
  = mkRow (name c) h (mapped header_mapping h) (dtype_str (sdtype c))
      (isnull_sum (values c)) (nunique (values c))
    :: metadata_report hs df.
Proof. done. Qed.

Lemma lookup_metadata_report hs df i r :
  metadata_report hs df !! i = Some r →
  ∃ h c, hs !! i = Some h ∧ df !! i = Some c
    ∧ r = mkRow (name c) h (mapped header_mapping h) (dtype_str (sdtype c))
            (isnull_sum (values c)) (nunique (values c)).
Proof.
  unfold metadata_report. rewrite lookup_zip_with.
  destruct (hs !! i) as [h|]; [|done]. simpl.
  destruct (df !! i) as [c|]; [|done]. simpl. intros [= <-]. eauto.
Qed.

Section report_rows.
Context `{Pandas}.

(** X8.  When [clean_data] returns, the report repeats the input labels in
    its column "Original Headers" and the labels of the result both in its
    index and in its column "Mapped Headers"; the type it records for a
    column is never "object"; and for each column the missing cells and the
    distinct values it counts are together at most the rows of the result. *)
Theorem report_consistency (df out : DataFrame) (meta : list metadata_row) :
  clean_data df = Ok (out, meta) →
  original_header <$> meta = columns df
  ∧ index <$> meta = columns out
  ∧ mapped_header <$> meta = columns out
  ∧ Forall (λ r, column_type r ≠ "object") meta
  ∧ Forall2 (λ r c, missing_values r + unique_values r ≤ length (values c))
      meta out.
Proof.
  intros Hc. pose proof (result_columns _ _ _ Hc) as Hcols.
  destruct (clean_data_Ok _ _ _ Hc) as (_ & filled & _ & _ & ->).
  unfold columns. clear Hc.
  induction Hcols as [|c0 c l l' (c2 & Hc2 & Hn & Hd & _) _ IH].
  - split_and!; try done; constructor.
  - rewrite !fmap_cons, metadata_report_cons.
    destruct IH as (IH1 & IH2 & IH3 & IH4 & IH5).
    rewrite !fmap_cons. simpl. split_and!.
    + by f_equal.
    + by f_equal.
    + f_equal; [|done].
      by rewrite Hn, (name_fill_column _ _ Hc2), name_coerce.
    + constructor; [|done]. simpl.
      assert (sdtype c ≠ Object) as Hobj.
      { rewrite Hd, (sdtype_fill_column _ _ Hc2). apply coerce_not_object. }
      by destruct (sdtype c).
    + constructor; [|done]. simpl. apply report_counts_bound.
Qed.

(** X9.  When [clean_data] returns, the report records no missing cell for
    a column, unless the column is, after coercion, a float64 or int64 column
    whose mean is NaN (a column without a present cell, or one that holds
    both inf and -inf).  For a column of the result in which every cell is
    missing it records as many missing cells as the result has rows, and no
    distinct value. *)
Theorem report_no_missing (df out : DataFrame) (meta : list metadata_row) :
  clean_data df = Ok (out, meta) →
  Forall2
    (λ r c1, missing_values r = 0
             ∨ (is_numeric_dtype (sdtype c1) = true
                ∧ mean (values c1) = NA))
    meta (coerce <$> rename header_mapping df)
  ∧ Forall2
      (λ r c, Forall (λ x, x = NA) (values c) →
              missing_values r = length (values c) ∧ unique_values r = 0)
      meta out.
Proof.
  intros Hc.
  pose proof (report_missing_counts df out meta Hc) as Hcount.
  pose proof (length_clean_data _ _ _ Hc) as Hlen.
  destruct (clean_data_Ok _ _ _ Hc) as (_ & filled & _ & _ & Hmeta).
  assert (length meta = length df) as Hlen'.
  { rewrite Hmeta. unfold metadata_report, columns.
    rewrite length_zip_with, length_fmap. lia. }
  split.
  - apply Forall2_same_length_lookup_2.
    { unfold rename. by rewrite !length_fmap. }
    intros i r c1 Hr Hi1. rewrite Hmeta in Hr.
    apply lookup_metadata_report in Hr as (h & c & _ & Hi & ->). simpl.
    destruct (Hcount i c Hi) as [Hzero|(Hd & c1' & Hi1' & Hm & _)];
      [by left|right].
    assert (c1' = c1) as -> by congruence. split; [|done].
    destruct (clean_data_Ok _ _ _ Hc) as (_ & filled' & Hf & -> & _).
    destruct (traverse_lookup _ _ _ _ _ Hf Hi1) as (c2 & Hc2 & Hi2).
    destruct (lookup_drop_duplicates _ _ _ Hi2) as (c' & Hi' & _ & Ht & _).
    assert (c' = c) as -> by congruence.
    by rewrite <-(sdtype_fill_column _ _ Hc2), <-Ht.
  - apply Forall2_same_length_lookup_2; [lia|].
    intros i r c Hr Hi. rewrite Hmeta in Hr.
    apply lookup_metadata_report in Hr as (h & c' & _ & Hi' & ->).
    assert (c' = c) as -> by congruence. simpl.
    apply isnull_sum_all_missing.
Qed.

End report_rows.

Lemma report_consistency_witness :
  original_header <$> below_detection_report = columns below_detection
  ∧ index <$> below_detection_report = columns below_detection_output
  ∧ mapped_header <$> below_detection_report = columns below_detection_output
  ∧ Forall (λ r, column_type r ≠ "object") below_detection_report
  ∧ Forall2 (λ r c, missing_values r + unique_values r ≤ length (values c))
      below_detection_report below_detection_output.
Proof.
  apply (@report_consistency decimal_parsers below_detection).
  exact clean_below_detection.
Defined.

Lemma report_no_missing_witness :
  Forall2
    (λ r c1, missing_values r = 0
             ∨ (is_numeric_dtype (sdtype c1) = true
                ∧ @mean decimal_parsers (values c1) = NA))
    below_detection_report
    (@coerce decimal_parsers <$> rename header_mapping below_detection)
  ∧ Forall2
      (λ r c, Forall (λ x, x = NA) (values c) →
              missing_values r = length (values c) ∧ unique_values r = 0)
      below_detection_report below_detection_output.
Proof.
  apply (@report_no_missing decimal_parsers below_detection).
  exact clean_below_detection.
Defined.

(** ** Cleaning a cleaned frame *)


Lemma omap_sublist_nil {A B} (f : A → option B) (l k : list A) :
  l `sublist_of` k → omap f k = [] → omap f l = [].
Proof.
  intros Hs Hk. destruct (omap f l) as [|y ys] eqn:E; [done|].
  assert (y ∈ omap f l) as Hy by (rewrite E; left).
  apply list_elem_of_omap in Hy as (x & Hx & Hfx).
  assert (y ∈ omap f k) as Hy'.
  { apply list_elem_of_omap. exists x. split; [|done].
    by eapply elem_of_sublist. }
  rewrite Hk in Hy'. by apply elem_of_nil in Hy'.
Qed.


Section cleaned_again.
Context `{Pandas}.





End cleaned_again.


(* Where sums overflow, the mean of a column can be NaN before the duplicate
   rows are removed and a number after: the first pass leaves the missing
   cell of [overflowing_frame] (the sum of the equal floats is -inf, and
   -inf plus inf is NaN), the second pass fills it with inf, the mean of the
   two cells that are left. *)
Example clean_twice_overflowing :
  @clean_data overflowing_parsers overflowing_frame
  = Ok ([ mkSeries "Result Value" Float64
            [VFloat (Qc_of_Z (- 2 ^ 1023)); VInf false; NA] ],
        [ mkRow "Result Value" "Result Value" "Result Value" "float64" 1 2 ])
  ∧ @clean_data overflowing_parsers
      [ mkSeries "Result Value" Float64
          [VFloat (Qc_of_Z (- 2 ^ 1023)); VInf false; NA] ]
    = Ok ([ mkSeries "Result Value" Float64
              [VFloat (Qc_of_Z (- 2 ^ 1023)); VInf false] ],
          [ mkRow "Result Value" "Result Value" "Result Value" "float64"
              0 2 ]).
Proof. split; apply (bool_decide_unpack _); by vm_compute. Qed.

(** ** Sentinels in a column of measurements *)

Section measurements.
Context `{Pandas}.

Lemma reading_numeric_cell x :
  x = NA ∨ (∃ s, x = VStr s) →
  number_of (numeric_cell (replace_cell sentinels x)) = reading x
  ∧ (reading x = None → numeric_cell (replace_cell sentinels x) = NA).
Proof.
  intros [->|[s ->]]; [done|]. simpl.
  destruct (decide (s ∈ ["N/A"; "NA"; "<0.3"])) as [Hin|Hnin].
  - by rewrite (proj1 (sentinels_lookup s) Hin).
  - rewrite (proj2 (sentinels_lookup s) Hnin). simpl.
    by destruct (parse_number s) as [[z|q|b]|].
Qed.

(* a column that [to_numeric] does not make a float64 or int64 column has a
   cell, and none of its cells is missing *)
Lemma to_numeric_other s :
  is_numeric_dtype (sdtype (to_numeric s)) = false →
  values (to_numeric s) ≠ []
  ∧ Forall (λ x, x ≠ NA) (values (to_numeric s)).
Proof.
  unfold to_numeric.
  destruct (_ || _) eqn:Ew; [done|].
  apply orb_false_elim in Ew as [Ew _].
  apply orb_false_elim in Ew as [Ef _].
  destruct (existsb is_integer _) eqn:Ei; simpl.
  - intros _. split.
    + intros E%fmap_nil_inv. by rewrite E in Ei.
    + apply Forall_fmap, Forall_forall. intros x Hx. simpl.
      pose proof (existsb_false _ _ _ Ef Hx). by destruct x.
  - destruct (numeric_cell <$> values s) as [|v vs] eqn:E; [done|].
    intros _. split; [done|]. simpl.
    apply Forall_forall. intros x Hx.
    pose proof (existsb_false _ _ _ Ef Hx). by destruct x.
Qed.

(** X12.  A column of text (storage type object; every cell is a text or
    missing) with a label that does not contain "date".  Type coercion
    followed by imputation raises nothing and keeps the label and the
    length.  A cell whose text parses as a number is present in the result,
    with the value type coercion gave it.  Every other cell (sentinel, text
    that does not parse, missing cell) holds the mean of the coerced
    column, which is a float64 column as soon as there is such a cell; when
    the texts "inf" and "-inf" are both read in the column, that mean is
    NaN and these cells stay missing. *)
Theorem sentinel_imputation (c : Series) :
  sdtype c = Object →
  is_date_column (name c) = false →
  Forall (λ x, x = NA ∨ ∃ s, x = VStr s) (values c) →
  ∃ c',
    fill_column (coerce c) = Ok c'
    ∧ name c' = name c
    ∧ length (values c') = length (values c)
    ∧ (∀ j x, values c !! j = Some x →
         ∃ y, values c' !! j = Some y
           ∧ (reading x = None →
              sdtype c' = Float64 ∧ y = mean (values (coerce c)))
           ∧ (reading x ≠ None →
              y ≠ NA ∧ values (coerce c) !! j = Some y))
    ∧ (Infinity false ∈ omap reading (values c) →
       Infinity true ∈ omap reading (values c) →
       mean (values (coerce c)) = NA).
Proof.
  intros Hobj Hdate Htext.
  assert (coerce c = to_numeric (replace sentinels c)) as ->.
  { unfold coerce, date_step, numeric_step.
    by rewrite Hdate, decide_True. }
  set (c1 := to_numeric (replace sentinels c)).
  assert (length (values c1) = length (values c)) as Hlen.
  { unfold c1. rewrite to_numeric_length. simpl. by rewrite length_fmap. }
  assert (∀ j x, values c !! j = Some x →
            ∃ y, values c1 !! j = Some y
              ∧ (reading x = None → y = NA)
              ∧ (reading x ≠ None → y ≠ NA)
              ∧ (∀ b, reading x = Some (Infinity b) → y = VInf b))
    as Hcells.
  { intros j x Hx.
    destruct (to_numeric_lookup (replace sentinels c) j
                (replace_cell sentinels x)) as (y & Hy & Hna & Hq).
    { simpl. by rewrite list_lookup_fmap, Hx. }
    fold c1 in Hy. exists y. split; [done|].
    assert (x = NA ∨ ∃ s, x = VStr s) as Hkind.
    { rewrite Forall_forall in Htext. apply Htext.
      apply list_elem_of_lookup. eauto. }
    destruct (reading_numeric_cell x Hkind) as [Hnumber Hmissing].
    split_and!.
    - intros Er. by apply Hna, Hmissing.
    - intros Er. destruct (reading x) as [v|] eqn:Ev; [|done].
      specialize (Hq v Hnumber). intros ->. done.
    - intros b Er. rewrite Er in Hnumber. specialize (Hq _ Hnumber).
      by destruct y; simplify_eq/=. }
  assert (∀ b, Infinity b ∈ omap reading (values c) → VInf b ∈ values c1)
    as Hinf.
  { intros b (x & Hx & Hr)%list_elem_of_omap.
    apply list_elem_of_lookup in Hx as [j Hj].
    destruct (Hcells j x Hj) as (y & Hy & _ & _ & Hb).
    rewrite (Hb b Hr) in Hy. apply list_elem_of_lookup. eauto. }
  destruct (is_numeric_dtype (sdtype c1)) eqn:Hnum.
  - rewrite (fill_column_numeric c1 Hnum). eexists. split; [done|]. simpl.
    split; [unfold c1; by rewrite name_to_numeric|].
    unfold fillna. rewrite length_fmap. split; [done|]. split.
    + intros j x Hx. destruct (Hcells j x Hx) as (y & Hy & Hna & Hp & _).
      rewrite list_lookup_fmap, Hy. simpl. eexists. split; [done|]. split.
      * intros Er. rewrite (Hna Er). simpl. split; [|done].
        rewrite (Hna Er) in Hy.
        destruct (sdtype c1) eqn:Ed; try done. exfalso.
        assert (cell_fits Int64 NA) as Hfit; [|done].
        pose proof (wf_to_numeric (replace sentinels c)) as Hwf.
        fold c1 in Hwf. unfold wf_series in Hwf. rewrite Ed in Hwf.
        rewrite Forall_forall in Hwf. apply Hwf.
        apply list_elem_of_lookup. eauto.
      * intros Er. specialize (Hp Er). by destruct y.
    + intros Hp Hn. apply mean_infinities; by apply Hinf.
  - destruct (to_numeric_other _ Hnum) as [Hne Hall].
    fold c1 in Hne, Hall.
    rewrite (fill_column_no_missing c1 Hall Hne). eexists. split; [done|].
    split; [unfold c1; by rewrite name_to_numeric|]. split; [done|]. split.
    + intros j x Hx. destruct (Hcells j x Hx) as (y & Hy & Hna & Hp & _).
      exists y. split; [done|]. rewrite Forall_forall in Hall.
      assert (y ≠ NA) as Hy'.
      { apply Hall. apply list_elem_of_lookup. eauto. }
      split; [|done]. intros Er. by specialize (Hna Er).
    + intros Hp Hn. apply mean_infinities; by apply Hinf.
Qed.

End measurements.

Lemma sentinel_imputation_witness :
  ∃ c',
    @fill_column decimal_parsers (@coerce decimal_parsers detection_column)
    = Ok c'
    ∧ name c' = name detection_column
    ∧ length (values c') = length (values detection_column)
    ∧ (∀ j x, values detection_column !! j = Some x →
         ∃ y, values c' !! j = Some y
           ∧ (@reading decimal_parsers x = None →
              sdtype c' = Float64
              ∧ y = @mean decimal_parsers
                      (values (@coerce decimal_parsers detection_column)))
           ∧ (@reading decimal_parsers x ≠ None →
              y ≠ NA
              ∧ values (@coerce decimal_parsers detection_column) !! j
                = Some y))
    ∧ (Infinity false
       ∈ omap (@reading decimal_parsers) (values detection_column) →
       Infinity true
       ∈ omap (@reading decimal_parsers) (values detection_column) →
       @mean decimal_parsers
         (values (@coerce decimal_parsers detection_column)) = NA).
Proof.
  apply (@sentinel_imputation decimal_parsers detection_column).
  - reflexivity.
  - reflexivity.
  - repeat (apply Forall_cons; split; [right; eauto|]). apply Forall_nil_2.
Defined.

(* 1.0, "<0.3", 3.0 become 1.0, 2.0, 3.0 *)
Example impute_detection_column :
  @fill_column decimal_parsers (@coerce decimal_parsers detection_column)
  = Ok (mkSeries "Result Value" Float64
          [VFloat (Qc_of_Z 1); VFloat (Qc_of_Z 2); VFloat (Qc_of_Z 3)]).
Proof. apply (bool_decide_unpack _). by vm_compute. Qed.

(* "inf", "-inf", "<0.3": the sentinel cell stays missing *)
Example impute_infinite_texts :
  @fill_column decimal_parsers
    (@coerce decimal_parsers
       (mkSeries "Result Value" Object
          [VStr "inf"; VStr "-inf"; VStr "<0.3"]))
  = Ok infinite_column.
Proof. apply (bool_decide_unpack _). by vm_compute. Qed.
